(** * Seoul hotel reviews via YouTube: ingestion and query service

    A shallow embedding of the subtitle ingestion pipeline
    ([ingest/common.py], [ingest/p04_fetch_subtitles.py],
    [src/yt_ingest/yt_subtitles.py], [src/yt_ingest/bq_client.py]) and of the
    query endpoint ([app/main.py]), with the properties the specification
    states about them.

    Conventions.
    - A Python [str] is a list of Unicode code points ([pystr]); literals are
      written [py "..."] for ASCII text.
    - A Python [float] holding a time or a delay is an exact rational ([Q]);
      the properties below compare results of the same arithmetic expression
      or its sign, which rounding does not change.
    - A call into an external service (yt-dlp, HTTP, BigQuery) is a field of a
      backend record and may raise: it returns [Raise e] or [Ok v]. *)

From Stdlib Require Import Ascii String QArith Qminmax.
From stdpp Require Import base option list.
From Equations Require Import Equations.
From Stdlib Require Import Lia Lqa.

Local Open Scope Z_scope.
Local Open Scope list_scope.

(** ** Python strings *)

Module PyStr.

Abbreviation pystr := (list N).

(** An ASCII literal as a Python string. *)
Definition py (s : string) : pystr :=
  map N_of_ascii (list_ascii_of_string s).

(** [s.startswith(p)] *)
Fixpoint startswith (s p : pystr) {struct p} : bool :=
  match p, s with
  | [], _ => true
  | _ :: _, [] => false
  | c :: p', d :: s' => if N.eqb c d then startswith s' p' else false
  end.

(** [s.endswith(p)] *)
Definition endswith (s p : pystr) : bool := startswith (rev s) (rev p).

(** [p in s] for strings: [p] occurs in [s] as a contiguous block. *)
Fixpoint contains (s p : pystr) : bool :=
  startswith s p ||
  match s with
  | [] => false
  | _ :: s' => contains s' p
  end.

(** [sep.join(parts)] *)
Fixpoint join (sep : pystr) (parts : list pystr) : pystr :=
  match parts with
  | [] => []
  | [x] => x
  | x :: rest => x ++ sep ++ join sep rest
  end.

(** [s.replace(a, b)] for a one-character [a]. *)
Definition replace_char (a : N) (b : pystr) (s : pystr) : pystr :=
  flat_map (fun c => if N.eqb c a then b else [c]) s.

(** [str.isspace] on one code point ([_PyUnicode_IsWhitespace]). *)
Definition is_space (c : N) : bool :=
  ((9 <=? c) && (c <=? 13) || (28 <=? c) && (c <=? 32) ||
   (c =? 133) || (c =? 160) || (c =? 5760) ||
   (8192 <=? c) && (c <=? 8202) || (c =? 8232) || (c =? 8233) ||
   (c =? 8239) || (c =? 8287) || (c =? 12288))%N.

Fixpoint lstrip_by (f : N -> bool) (s : pystr) : pystr :=
  match s with
  | [] => []
  | c :: s' => if f c then lstrip_by f s' else s
  end.

Definition rstrip_by (f : N -> bool) (s : pystr) : pystr :=
  rev (lstrip_by f (rev s)).

Definition strip_by (f : N -> bool) (s : pystr) : pystr :=
  rstrip_by f (lstrip_by f s).

(** [s.strip()], [s.rstrip()] *)
Definition strip : pystr -> pystr := strip_by is_space.
Definition rstrip : pystr -> pystr := rstrip_by is_space.

(** [s.strip(chars)] *)
Definition strip_chars (chars : pystr) : pystr -> pystr :=
  strip_by (fun c => existsb (N.eqb c) chars).

Definition space : pystr := [32%N].
Definition newline : N := 10%N.

(** Truthiness of a string or of a list: [bool(s)]. *)
Definition nonempty (s : pystr) : bool :=
  match s with [] => false | _ => true end.

Definition nonempty_list {A} (l : list A) : bool :=
  match l with [] => false | _ => true end.

(** [s[:n]] for [n >= 0]. *)
Fixpoint slice_to (n : N) (s : pystr) : pystr :=
  match s with
  | [] => []
  | c :: r => if N.eqb n 0 then [] else c :: slice_to (N.pred n) r
  end.

(** Truthiness of an [Optional[str]]. *)
Definition truthy (k : option pystr) : bool :=
  match k with Some (_ :: _) => true | _ => false end.

(** [a or b] on [Optional[str]]. *)
Definition py_or (a b : option pystr) : option pystr :=
  if truthy a then a else b.

End PyStr.
Import PyStr.

(** ** Exceptions *)

Inductive result (A : Type) : Type :=
| Ok (v : A)
| Raise (e : pystr).
Arguments Ok {A} v.
Arguments Raise {A} e.

#[global] Instance result_ret : MRet result := fun _ v => Ok v.

#[global] Instance result_bind : MBind result := fun _ _ k m =>
  match m with
  | Ok v => k v
  | Raise e => Raise e
  end.

(** [try: body  except Exception as e: handler(e)] *)
Definition try_except {A} (body : result A) (handler : pystr -> result A)
  : result A :=
  match body with
  | Ok v => Ok v
  | Raise e => handler e
  end.

(** ** Python's [min] and [max] on two numbers *)

Module PyNum.

(** [min(a, b)]: the first argument unless the second is strictly smaller. *)
Definition pymin (a b : Q) : Q :=
  match Qcompare b a with
  | Lt => b
  | _ => a
  end.

(** [max(a, b)]: the first argument unless the second is strictly larger. *)
Definition pymax (a b : Q) : Q :=
  match Qcompare b a with
  | Gt => b
  | _ => a
  end.

End PyNum.
Import PyNum.

(** ** Backoff utility ([ingest/common.py]) *)

Module Backoff.

(** The generator body: the loop of [backoff_sequence] run [n] more times
    from the current value of the local [delay]. *)
Fixpoint backoff_loop (n : nat) (delay cap factor : Q) : list Q :=
  match n with
  | O => []
  | S n' =>
      pymin delay cap :: backoff_loop n' (pymin (delay * factor) cap) cap factor
  end.

(** [list(backoff_sequence(max_tries, base, cap, factor))];
    [range(max_tries)] is empty for a negative [max_tries]. *)
Definition backoff_sequence (max_tries : Z) (base cap factor : Q) : list Q :=
  backoff_loop (Z.to_nat max_tries) base cap factor.

Definition default_sequence : list Q := backoff_sequence 3 1 16 2.

End Backoff.

(** ** Language selection policy ([ingest/p04_fetch_subtitles.py]) *)

Module LangPolicy.

Section Policy.
Context {V : Type}.

(** A [Dict[str, V]] in its iteration (insertion) order. *)
Definition keys (available : list (pystr * V)) : list pystr :=
  map fst available.

(** [available.get(k)] *)
Fixpoint lookup_key (available : list (pystr * V)) (k : pystr) : option V :=
  match available with
  | [] => None
  | (k', v) :: rest =>
      if bool_decide (k' = k) then Some v else lookup_key rest k
  end.

(** [for k in keys: if k.startswith(pat): return k] *)
Fixpoint first_startswith (ks : list pystr) (pat : pystr) : option pystr :=
  match ks with
  | [] => None
  | k :: rest => if startswith k pat then Some k else first_startswith rest pat
  end.

(** The loop [for pat in order] of [best_lang_key]. *)
Fixpoint scan_order (ks : list pystr) (order : list pystr) : option pystr :=
  match order with
  | [] => None
  | pat :: rest =>
      if endswith pat (py "-") then
        match first_startswith ks pat with
        | Some k => Some k
        | None => scan_order ks rest
        end
      else if bool_decide (pat ∈ ks) then Some pat
      else scan_order ks rest
  end.

Definition best_lang_key (available : list (pystr * V)) (pref fb : pystr)
  : option pystr :=
  let order := [pref; pref ++ py "-"; py "a." ++ pref;
                fb; fb ++ py "-"; py "a." ++ fb] in
  scan_order (keys available) order.

(** The policy in the words of the specification, for one language code:
    the exact key, then the first key starting with [code-], then the
    exact key [a.code]. *)
Definition three_checks (ks : list pystr) (code : pystr) : option pystr :=
  if bool_decide (code ∈ ks) then Some code
  else match first_startswith ks (code ++ py "-") with
       | Some k => Some k
       | None =>
           if bool_decide (py "a." ++ code ∈ ks) then Some (py "a." ++ code)
           else None
       end.

(** The six checks of the specification: preferred code, then fallback. *)
Definition policy_select (ks : list pystr) (pref fb : pystr) : option pystr :=
  match three_checks ks pref with
  | Some k => Some k
  | None => three_checks ks fb
  end.

End Policy.

End LangPolicy.

(** ** Caption format parsers *)

(** The segment dictionaries both parsers of [p04_fetch_subtitles.py] build:
    [{"idx", "start_sec", "dur_sec", "text"}]. *)
Record segment := Segment {
  idx : nat;
  start_sec : Q;
  dur_sec : Q;
  text : pystr
}.

Module Json3.

(** One fragment of an event; [utf8] may be missing. *)
Record frag := Frag { utf8 : option pystr }.

(** One decoded JSON3 event; every field may be missing. *)
Record event := Event {
  tStartMs : option Z;
  dDurationMs : option Z;
  segs : option (list frag)
}.

(** A decoded JSON3 document; the [events] key may be missing. *)
Record json3 := Json3 { events : option (list event) }.

(** [ms / 1000.0] *)
Definition ms_to_sec (ms : Z) : Q := (inject_Z ms / 1000)%Q.

(** [ev.get("segs") or []] *)
Definition seg_list (ev : event) : list frag := default [] (segs ev).

(** ["".join(s.get("utf8", "") for s in seg_list)] *)
Definition joined (fr : list frag) : pystr :=
  concat (map (fun s => default [] (utf8 s)) fr).

(** [....replace("\n", " ").strip()] of the joined fragments. *)
Definition event_text (ev : event) : pystr :=
  strip (replace_char newline space (joined (seg_list ev))).

(** The locals [segs], [full] and [idx] of [parse_json3_events]. *)
Record acc := Acc {
  acc_segs : list (nat * Q * Q * pystr);
  acc_full : list pystr;
  acc_idx : nat
}.

(** One iteration of the [for ev in ...] loop. *)
Definition step (a : acc) (ev : event) : acc :=
  if nonempty_list (seg_list ev) then
    let text := event_text ev in
    if nonempty text then
      let start := ms_to_sec (default 0 (tStartMs ev)) in
      let dur := ms_to_sec (default 0 (dDurationMs ev)) in
      {| acc_segs := acc_segs a ++ [(acc_idx a, start, dur, text)];
         acc_full := acc_full a ++ [text];
         acc_idx := S (acc_idx a) |}
    else a
  else a.

(** [parse_json3_events(json3_obj)]; [None] stands for a falsy argument. *)
Definition parse_json3_events (json3_obj : option json3)
  : list segment * pystr :=
  let evs := match json3_obj with
             | Some o => default [] (events o)
             | None => []
             end in
  let a := fold_left step evs (Acc [] [] 0) in
  (map (fun '(i, st, du, tx) => Segment i st du tx) (acc_segs a),
   join space (acc_full a)).

(** The snippet dictionaries of [yt_subtitles.py]:
    [{"idx", "start", "end", "duration", "text"}]. *)
Record snippet := Snippet {
  sn_idx : nat;
  sn_start : Q;
  sn_end : Q;
  sn_duration : Q;
  sn_text : pystr
}.

(** One iteration of the loop of [_events_to_snippets] on the locals
    [out] and [idx]. *)
Definition snippet_step (st : list snippet * nat) (e : event)
  : list snippet * nat :=
  let '(out, i) := st in
  match segs e, tStartMs e with
  | Some (f :: fs), Some tstart =>
      let start := ms_to_sec tstart in
      let dur := ms_to_sec (default 0 (dDurationMs e)) in
      let end_ := (start + dur)%Q in
      let tx := strip (joined (f :: fs)) in
      if nonempty tx then (out ++ [Snippet i start end_ dur tx], S i)
      else (out, i)
  | _, _ => (out, i)
  end.

(** [_events_to_snippets(json3)] *)
Definition _events_to_snippets (j : json3) : list snippet :=
  fst (fold_left snippet_step (default [] (events j)) ([], 0%nat)).

End Json3.

Module WebVtt.

Section Parser.

(** [Py_UNICODE_TODECIMAL]: the value of a code point that is a decimal
    digit in Unicode, which is what [\d], [int] and [float] accept. *)
Variable todecimal : N -> option Z.

Definition is_digit (c : N) : bool :=
  match todecimal c with Some _ => true | None => false end.

(** [int(s)] on a string of decimal digits. *)
Definition py_int (s : pystr) : Z :=
  fold_left (fun n c => 10 * n + default 0 (todecimal c)) s 0.

Definition dot : N := 46%N.

Fixpoint before_dot (s : pystr) : pystr :=
  match s with
  | [] => []
  | c :: r => if N.eqb c dot then [] else c :: before_dot r
  end.

Fixpoint after_dot (s : pystr) : pystr :=
  match s with
  | [] => []
  | c :: r => if N.eqb c dot then r else after_dot r
  end.

(** [float(s)] on a string of the shape digits, dot, digits. *)
Definition py_float (s : pystr) : Q :=
  (inject_Z (py_int (before_dot s))
   + inject_Z (py_int (after_dot s))
     / inject_Z (10 ^ Z.of_nat (length (after_dot s))))%Q.

(** [_hms_to_sec(h, m, s_str)] *)
Definition _hms_to_sec (h m s_str : pystr) : Q :=
  let s := py_float s_str in
  (inject_Z (py_int h * 3600 + py_int m * 60) + s)%Q.

(** The named groups of a match of [_VTT_TS]. *)
Record ts_match := TsMatch {
  g_h : pystr; g_m : pystr; g_s : pystr;
  g_h2 : pystr; g_m2 : pystr; g_s2 : pystr
}.

(** [\d{n}] at the head of [s]: the digits and what follows them. *)
Definition digits (n : nat) (s : pystr) : option (pystr * pystr) :=
  let d := take n s in
  if (length d =? n)%nat && forallb is_digit d then Some (d, drop n s)
  else None.

(** A literal at the head of [s]. *)
Definition lit (l : pystr) (s : pystr) : option pystr :=
  if startswith s l then Some (drop (length l) s) else None.

(** [\s] at the head of [s]. *)
Definition white (s : pystr) : option pystr :=
  match s with
  | c :: r => if is_space c then Some r else None
  | [] => None
  end.

(** [\d{2}:\d{2}:\d{2}\.\d{3}] at the head of [s]: the three groups and
    the rest. *)
Definition stamp (s : pystr) : option (pystr * pystr * pystr * pystr) :=
  '(h, s) ← digits 2 s;
  s ← lit (py ":") s;
  '(m, s) ← digits 2 s;
  s ← lit (py ":") s;
  '(sec, s) ← digits 2 s;
  s ← lit (py ".") s;
  '(ms, s) ← digits 3 s;
  Some (h, m, sec ++ py "." ++ ms, s).

(** [_VTT_TS.search(ln)]: the pattern starts with [^] and is compiled
    without flags, so it can only match at the start of [ln]. *)
Definition _VTT_TS_search (ln : pystr) : option ts_match :=
  '(h, m, s, r) ← stamp ln;
  r ← white r;
  r ← lit (py "-->") r;
  r ← white r;
  '(h2, m2, s2, _) ← stamp r;
  Some (TsMatch h m s h2 m2 s2).

(** Line boundaries of [str.splitlines]. *)
Definition is_linebreak (c : N) : bool :=
  ((10 <=? c) && (c <=? 13) || (28 <=? c) && (c <=? 30) ||
   (c =? 133) || (c =? 8232) || (c =? 8233))%N.

(** [s.splitlines()], with [cur] the line being read. *)
Fixpoint splitlines_from (cur : pystr) (s : pystr) : list pystr :=
  match s with
  | [] => if nonempty cur then [cur] else []
  | c :: r =>
      if is_linebreak c then
        match r with
        | d :: r' =>
            if N.eqb c 13 && N.eqb d 10 then cur :: splitlines_from [] r'
            else cur :: splitlines_from [] r
        | [] => cur :: splitlines_from [] r
        end
      else splitlines_from (cur ++ [c]) r
  end.

Definition splitlines (s : pystr) : list pystr := splitlines_from [] s.

(** [ln.strip("\ufeff ").rstrip()] *)
Definition clean_line (ln : pystr) : pystr :=
  rstrip (strip_chars [65279%N; 32%N] ln).

Definition arrow : pystr := py "-->".

(** The inner [while]: collect the text lines of a cue; returns them with
    the lines left at the first blank line or timestamp line. *)
Fixpoint cue_lines (lines : list pystr) (text_lines : list pystr)
  : list pystr * list pystr :=
  match lines with
  | [] => (text_lines, [])
  | l :: rest =>
      if nonempty l && negb (contains l arrow) then
        cue_lines rest
          (if negb (startswith l (py "NOTE")) then text_lines ++ [l]
           else text_lines)
      else (text_lines, lines)
  end.

(** The locals [segs], [full] and [idx] of [parse_webvtt]. *)
Record acc := Acc {
  acc_segs : list segment;
  acc_full : list pystr;
  acc_idx : nat
}.

(** The body of [if text:]: append the cue. *)
Definition emit (a : acc) (start end_ : Q) (tx : pystr) : acc :=
  if nonempty tx then
    {| acc_segs := acc_segs a ++
         [Segment (acc_idx a) start (pymax 0 (end_ - start)) tx];
       acc_full := acc_full a ++ [tx];
       acc_idx := S (acc_idx a) |}
  else a.

(** [" ".join(text_lines).replace("\n", " ").strip()] *)
Definition cue_text (text_lines : list pystr) : pystr :=
  strip (replace_char newline space (join space text_lines)).

(** The match object the outer loop acts on, if any:
    [if "-->" in ln: m = _VTT_TS.search(ln); if m: ...]. *)
Definition cue_start (ln : pystr) : option ts_match :=
  if contains ln arrow then _VTT_TS_search ln else None.

(** The outer [while i < len(lines)] loop on the lines from [i] on. *)
Equations? vtt_loop (lines : list pystr) (a : acc) : acc
  by wf (length lines) lt :=
vtt_loop [] a := a;
vtt_loop (ln :: rest) a with cue_start ln := {
  | Some m =>
      vtt_loop (snd (cue_lines rest []))
        (emit a (_hms_to_sec (g_h m) (g_m m) (g_s m))
                (_hms_to_sec (g_h2 m) (g_m2 m) (g_s2 m))
                (cue_text (fst (cue_lines rest []))))
  | None => vtt_loop rest a }.
Proof.
  assert (H : forall ls tl,
            (length (snd (cue_lines ls tl)) <= length ls)%nat).
  { induction ls as [|l ls IH]; intros tl; cbn [cue_lines]; [simpl; lia|].
    destruct (nonempty l && negb (contains l arrow)); [|simpl; lia].
    etrans; [apply IH|simpl; lia]. }
  specialize (H rest []). simpl. lia.
Qed.

(** [parse_webvtt(vtt_text)] *)
Definition parse_webvtt (vtt_text : pystr) : list segment * pystr :=
  let lines := map clean_line (splitlines vtt_text) in
  let a := vtt_loop lines (Acc [] [] 0) in
  (acc_segs a, join space (acc_full a)).

End Parser.

(** The decimal digits of ASCII, the ones caption files use. *)
Definition ascii_decimal (c : N) : option Z :=
  if ((48 <=? c) && (c <=? 57))%N then Some (Z.of_N c - 48) else None.

End WebVtt.

(** ** Subtitle acquisition ([ingest/p04_fetch_subtitles.py]) *)

Module Fetch.
Import Json3 LangPolicy.

(** One encoding of a track: [{"ext": ..., "url": ...}]. *)
Record entry := Entry { ext : option pystr; url : option pystr }.

(** What [rs[k].get("data")] holds: a decoded JSON3 document, or some other
    value on which reading the events raises [e]. *)
Inductive payload :=
| Decoded (j : json3)
| Malformed (e : pystr).

Record requested := Requested { data : option payload }.

(** The part of the yt-dlp info dictionary the code reads; each key may be
    missing. Dictionaries are in iteration order. *)
Record info := Info {
  requested_subtitles : option (list (pystr * requested));
  subtitles : option (list (pystr * list entry));
  automatic_captions : option (list (pystr * list entry))
}.

(** One HTTP GET as [session.get] ends: a response, a
    [requests.RequestException], or any other exception. *)
Inductive http_outcome :=
| Response (status_code : Z) (body : pystr)
| RequestError (e : pystr)
| OtherError (e : pystr).

(** The external collaborators of one acquisition. [http_get n u] is the
    outcome of a GET of [u] issued in slot [n] of the acquisition. *)
Record backend := Backend {
  extract_inline : pystr -> result (option info);
  extract_generic : pystr -> result (option info);
  http_get : nat -> pystr -> http_outcome;
  json_loads : pystr -> result payload
}.

(** The rows [dict(video_id=vid, lang=k, **e)] and
    [dict(video_id=vid, lang=k, full_text=...)]. *)
Record seg_row := SegRow { s_video_id : pystr; s_lang : pystr; s_seg : segment }.
Record full_row := FullRow { f_video_id : pystr; f_lang : pystr; full_text : pystr }.

(** [parse_json3_events(data)] on a payload. *)
Definition parse_payload (d : payload) : result (list segment * pystr) :=
  match d with
  | Decoded j => Ok (parse_json3_events (Some j))
  | Malformed e => Raise e
  end.

Definition retry_status (st : Z) : bool :=
  (st =? 429) || (st =? 500) || (st =? 503).

(** [r.raise_for_status()] raises for a 4xx or 5xx status. *)
Definition error_status (st : Z) : bool := (400 <=? st) && (st <? 600).

Section WithBackend.
Variable B : backend.
Variable todecimal : N -> option Z.

(** The loop of [download_text] over the remaining delays; [n] is the
    slot of the next GET. Sleeping has no result. *)
Fixpoint download_loop (delays : list Q) (n : nat) (u : pystr)
  : result (option pystr) :=
  match delays with
  | [] => Ok None
  | _ :: rest =>
      match http_get B n u with
      | Response st body =>
          if retry_status st then download_loop rest (S n) u
          else if error_status st then download_loop rest (S n) u
          else Ok (Some body)
      | RequestError _ => download_loop rest (S n) u
      | OtherError e => Raise e
      end
  end.

(** [download_text(url, session)] *)
Definition download_text (n : nat) (u : pystr) : result (option pystr) :=
  download_loop Backoff.default_sequence n u.

(** [best_lang_key(d, pref, fb) or (list(d.keys())[0] if d else None)] *)
Definition choose_key {V} (d : list (pystr * V)) (pref fb : pystr)
  : option pystr :=
  py_or (best_lang_key d pref fb) (head (keys d)).

(** [d[k]] *)
Definition getitem {V} (d : list (pystr * V)) (k : pystr) : result V :=
  match lookup_key d k with
  | Some v => Ok v
  | None => Raise (py "KeyError")
  end.

(** The two rows of a successful attempt. *)
Definition rows (vid k : pystr) (evs : list segment) (full_text : pystr)
  : list seg_row * option full_row :=
  (map (SegRow vid k) evs,
   Some (FullRow vid k (slice_to 1000000 full_text))).

(** The body of the first [try]: [Some r] when it returns [r], [None]
    when it falls through to the fallback. *)
Definition attempt_inline (vid pref fb : pystr)
  : result (option (list seg_row * option full_row)) :=
  info ← extract_inline B vid;
  let rs := default [] (info ≫= requested_subtitles) in
  if nonempty_list rs then
    let k := choose_key rs pref fb in
    match k with
    | Some (c :: k') =>
        r ← getitem rs (c :: k');
        match data r with
        | Some d =>
            '(evs, full_text) ← parse_payload d;
            if nonempty_list evs then
              Ok (Some (rows vid (c :: k') evs full_text))
            else Ok None
        | None => Ok None
        end
    | _ => Ok None
    end
  else Ok None.

(** [next((e.get("url") for e in entries if e.get("ext") in exts), None)] *)
Definition first_url (exts : list pystr) (entries : list entry)
  : option pystr :=
  match List.filter (fun e => match ext e with
                              | Some x => bool_decide (x ∈ exts)
                              | None => false
                              end) entries with
  | e :: _ => url e
  | [] => None
  end.

(** The inner [try] of the JSON3 URL branch; [None] when it passes or
    finds no segment. *)
Definition json3_from_text (vid k txt : pystr)
  : result (option (list seg_row * option full_row)) :=
  try_except
    (d ← json_loads B txt;
     '(evs, full_text) ← parse_payload d;
     if nonempty_list evs then Ok (Some (rows vid k evs full_text))
     else Ok None)
    (fun _ => Ok None).

(** The body of the second [try]. *)
Definition attempt_urls (vid pref fb : pystr)
  : result (list seg_row * option full_row) :=
  info ← extract_generic B vid;
  let subs := default [] (info ≫= subtitles) in
  let autos := default [] (info ≫= automatic_captions) in
  let pool := if nonempty_list subs then subs else autos in
  if negb (nonempty_list pool) then Ok ([], None)
  else
    match choose_key pool pref fb with
    | Some (c :: k') =>
        let k := c :: k' in
        let entries := default [] (lookup_key pool k) in
        let url_json3 := first_url [py "json3"] entries in
        let url_vtt :=
          first_url [py "vtt"; py "ttml"; py "srv3"; py "srv1"] entries in
        from_json3 ←
          (if truthy url_json3 then
             txt ← download_text 0 (default [] url_json3);
             if truthy txt then json3_from_text vid k (default [] txt)
             else Ok None
           else Ok None);
        match from_json3 with
        | Some r => Ok r
        | None =>
            if truthy url_vtt then
              txt ← download_text 3 (default [] url_vtt);
              if truthy txt then
                let '(evs, full_text) :=
                  WebVtt.parse_webvtt todecimal (default [] txt) in
                if nonempty_list evs then Ok (rows vid k evs full_text)
                else Ok ([], None)
              else Ok ([], None)
            else Ok ([], None)
        end
    | _ => Ok ([], None)
    end.

(** [fetch_subs_for_video(vid, pref, fb)]; the cookie file only changes
    how the backend is called and [debug] only prints. *)
Definition fetch_subs_for_video (vid pref fb : pystr)
  : result (list seg_row * option full_row) :=
  a ← try_except (attempt_inline vid pref fb) (fun _ => Ok None);
  match a with
  | Some r => Ok r
  | None =>
      try_except (attempt_urls vid pref fb) (fun _ => Ok ([], None))
  end.

End WithBackend.

End Fetch.

(** ** The stricter acquisition entry point ([src/yt_ingest/yt_subtitles.py]) *)

Module YtSubtitles.
Import Json3 LangPolicy Fetch.

(** The dictionary [get_subtitles] returns. *)
Record subtitle_row := SubtitleRow {
  video_id : pystr;
  subtitle_lang : option pystr;
  subtitle_text : option pystr;
  source : option pystr;
  snippet_count : nat;
  snippets : list snippet;
  errors : list pystr;
  ingested_at : pystr
}.

(** [_extract_info], [_download] (GET, status check and JSON decoding) and
    [_now_iso].  [_extract_info] returns what [ydl.extract_info] returns,
    which may be [None]. *)
Record backend := Backend {
  _extract_info : pystr -> result (option info);
  _download : pystr -> result json3;
  _now_iso : pystr
}.

(** [next((t for t in tracks if t.get("ext") == "json3"), None)] and the
    test [entry and entry.get("url")]. *)
Definition json3_url (tracks : list entry) : option pystr :=
  match List.filter (fun t => bool_decide (ext t = Some (py "json3"))) tracks with
  | e :: _ => if truthy (url e) then url e else None
  | [] => None
  end.

(** One of the two [for lang in langs] loops of [_pick_json3_track]. *)
Fixpoint pick_in (pool : list (pystr * list entry)) (langs : list pystr)
  : option (pystr * pystr) :=
  match langs with
  | [] => None
  | lang :: rest =>
      match json3_url (default [] (lookup_key pool lang)) with
      | Some u => Some (u, lang)
      | None => pick_in pool rest
      end
  end.

(** [_pick_json3_track(info, langs)]: [(url, lang, source)], or
    [("", "", "")]. *)
Definition _pick_json3_track (i : info) (langs : list pystr)
  : pystr * pystr * pystr :=
  let subs := default [] (subtitles i) in
  let autos := default [] (automatic_captions i) in
  match pick_in subs langs with
  | Some (u, lang) => (u, lang, py "manual")
  | None =>
      match pick_in autos langs with
      | Some (u, lang) => (u, lang, py "auto")
      | None => ([], [], [])
      end
  end.

(** The call [_pick_json3_track(info, pref_langs)] on what [_extract_info]
    returned: on [None] the first statement, [info.get("subtitles")], raises
    [AttributeError]. *)
Definition pick_track (i : option info) (langs : list pystr)
  : result (pystr * pystr * pystr) :=
  match i with
  | None => Raise (py "AttributeError")
  | Some i => Ok (_pick_json3_track i langs)
  end.

Definition failure_row (B : backend) (vid : pystr) (lang src : option pystr)
    (err : pystr) : subtitle_row :=
  SubtitleRow vid lang None src 0 [] [err] (_now_iso B).

(** [get_subtitles(video_id, pref_langs)] *)
Definition get_subtitles (B : backend) (vid : pystr)
    (pref_langs : option (list pystr)) : result subtitle_row :=
  let pref_langs := default [py "en"; py "ko"] pref_langs in
  match _extract_info B vid with
  | Raise e => Ok (failure_row B vid None None (py "extract_failed: " ++ e))
  | Ok i =>
      '(u, lang, src) ← pick_track i pref_langs;
      if negb (nonempty u) then
        Ok (failure_row B vid None None (py "no_suitable_track"))
      else
        try_except
          (d ← _download B u;
           let sn := _events_to_snippets d in
           let full_text :=
             if nonempty_list sn then Some (join space (map sn_text sn))
             else None in
           Ok (SubtitleRow vid (Some lang) full_text (Some src)
                 (length sn) sn [] (_now_iso B)))
          (fun e => Ok (failure_row B vid (Some lang) (Some src)
                          (py "download_or_parse_failed: " ++ e)))
  end.

End YtSubtitles.

(** ** Query service ([app/main.py]) *)

Module QueryService.

(** The JSON body of a request, with the types the page sends; each key may
    be missing or null. *)
Record payload := Payload {
  question : option pystr;
  lang_filter : option pystr;
  exclude_paid_ads : option bool;
  min_views : option Z;
  min_subs : option Z;
  top_k : option Z
}.

(** One row of the retrieval query; the columns read by [ask] and whether
    each is NULL. *)
Record candidate := Candidate {
  hotel_norm : option pystr;
  aspect : option pystr;
  sentiment : option pystr;
  review_summary : option pystr;
  yt_link : option pystr;
  video_title : option pystr;
  channel_title : option pystr;
  evidence_sec : option Z
}.

Record citation := Citation {
  review : pystr;
  link : option pystr;
  c_video_title : option pystr;
  c_channel_title : option pystr;
  c_evidence_sec : Z
}.

(** The bound parameters of the retrieval query. *)
Record retrieval_params := RetrievalParams {
  p_q_text : pystr;
  p_lang_filter : pystr;
  p_exclude_paid_ads : bool;
  p_min_views : Z;
  p_min_subs : Z;
  p_top_k : Z
}.

(** A query sent to the warehouse: the SQL text is fixed, so a query is its
    kind and its bound parameters. *)
Inductive query :=
| Retrieval (ps : retrieval_params)
| Generation (prompt : pystr).

(** The warehouse: what [bq_client.query(...).result()] gives for each of the
    two queries. *)
Record warehouse := Warehouse {
  retrieve : retrieval_params -> result (list candidate);
  generate : pystr -> result (list (option pystr))
}.

(** What the endpoint answers: the JSON response or an [HTTPException]. *)
Inductive response :=
| JSONResponse (summary : pystr) (citations : list citation)
| HTTPException (status_code : Z) (detail : pystr).

(** A computation that issues queries: it extends the list of queries issued
    so far and returns or raises. *)
Definition req (A : Type) : Type := list query -> list query * result A.

#[global] Instance req_ret : MRet req := fun _ v t => (t, Ok v).

#[global] Instance req_bind : MBind req := fun _ _ k m t =>
  match m t with
  | (t', Ok v) => k v t'
  | (t', Raise e) => (t', Raise e)
  end.

Definition raise {A} (e : pystr) : req A := fun t => (t, Raise e).

(** [list(bq_client.query(sql_cand, ...).result())] *)
Definition query_candidates (W : warehouse) (ps : retrieval_params)
  : req (list candidate) :=
  fun t => (t ++ [Retrieval ps], retrieve W ps).

(** [list(bq_client.query(sql_summary, ...).result())] *)
Definition query_summary (W : warehouse) (prompt : pystr)
  : req (list (option pystr)) :=
  fun t => (t ++ [Generation prompt], generate W prompt).

Definition em_dash : pystr := [8212%N].
Definition en_dash : pystr := [8211%N].

(** [x or ""] *)
Definition or_empty (x : option pystr) : pystr := default [] x.

(** [x or d] on an optional integer: zero is falsy. *)
Definition int_or (x : option Z) (d : Z) : Z :=
  match x with
  | Some v => if v =? 0 then d else v
  | None => d
  end.

(** [x or d] on an optional string: the empty string is falsy. *)
Definition str_or (x : option pystr) (d : pystr) : pystr :=
  match x with
  | Some (c :: r) => c :: r
  | _ => d
  end.

(** The dictionary appended to [citations] for one row. *)
Definition citation_of (r : candidate) : citation :=
  let review_text :=
    strip (or_empty (hotel_norm r) ++ py " " ++ em_dash ++ py " " ++
           or_empty (aspect r) ++ py ": " ++ or_empty (review_summary r)) in
  Citation review_text (yt_link r) (video_title r) (channel_title r)
           (int_or (evidence_sec r) 0).

(** The line appended to [bullets_parts] for one row. *)
Definition bullet_of (r : candidate) : pystr :=
  py "- " ++ or_empty (hotel_norm r) ++ py " " ++ em_dash ++ py " " ++
  or_empty (aspect r) ++ py " (" ++ or_empty (sentiment r) ++ py "): " ++
  or_empty (review_summary r).

Definition make_prompt (q_text bullets : pystr) : pystr :=
  py "Answer the user's question in the SAME language as the question (detect automatically). " ++
  py "Write 2" ++ en_dash ++ py "3 concise sentences, focusing on key takeaways. " ++
  py "Do not fabricate; use only the bullets below." ++ [newline] ++
  py "Question: " ++ q_text ++ [newline; newline] ++
  py "Bullets:" ++ [newline] ++ bullets.

Definition no_results : pystr :=
  py "No review candidates matched your question or filters.".

(** The parameters read from the payload, with the defaults of the page. *)
Definition params_of (p : payload) : retrieval_params :=
  RetrievalParams
    (strip (str_or (question p) []))
    (str_or (lang_filter p) (py "en"))
    (default false (exclude_paid_ads p))
    (int_or (min_views p) 0)
    (int_or (min_subs p) 0)
    (int_or (top_k p) 5).

(** The body of the [try] of [ask]. *)
Definition ask_body (W : warehouse) (p : payload) : req response :=
  let ps := params_of p in
  let q_text := p_q_text ps in
  if negb (nonempty q_text) then
    raise (py "HTTPException: 400: Missing 'question'.")
  else
    rows ← query_candidates W ps;
    let citations := map citation_of rows in
    let bullets := join [newline] (map bullet_of rows) in
    if negb (nonempty_list rows) then
      mret (JSONResponse no_results citations)
    else
      let prompt := make_prompt q_text bullets in
      summary_rows ← query_summary W prompt;
      match (match summary_rows with r :: _ => r | [] => Some [] end) with
      | Some tx => mret (JSONResponse (strip tx) citations)
      | None =>
          raise (py "AttributeError: 'NoneType' object has no attribute 'strip'")
      end.

(** [ask(payload)]: the queries issued, in order, and the answer. Any
    exception of the body becomes an [HTTPException] with status 500; an
    exception is written as the text [type: message] the handler formats. *)
Definition ask (W : warehouse) (p : payload) : list query * response :=
  match ask_body W p [] with
  | (t, Ok r) => (t, r)
  | (t, Raise e) => (t, HTTPException 500 e)
  end.

Definition is_generation (q : query) : bool :=
  match q with Generation _ => true | Retrieval _ => false end.

End QueryService.

(** ** Upsert loader ([src/yt_ingest/bq_client.py]) *)

Module Upsert.

(** One element of the [snippets] array; a field a dictionary lacks, or a
    NULL of the table, is [None]. *)
Record snippet := Snippet {
  sn_idx : option Z;
  sn_start : option Q;
  sn_end : option Q;
  sn_duration : option Q;
  sn_text : option pystr
}.

(** A row with the columns of [SUBTITLES_RAW]: [video_id] is REQUIRED, the
    other scalar columns are nullable, and a repeated column holds a list. *)
Record row := Row {
  video_id : pystr;
  subtitle_lang : option pystr;
  subtitle_text : option pystr;
  source : option pystr;
  snippet_count : option Z;
  snippets : list snippet;
  errors : list pystr;
  ingested_at : option pystr
}.

Inductive column :=
| c_video_id | c_subtitle_lang | c_subtitle_text | c_source
| c_snippet_count | c_snippets | c_errors | c_ingested_at.

#[global] Instance column_eq_dec : EqDecision column.
Proof. solve_decision. Defined.

Definition columns : list column :=
  [c_video_id; c_subtitle_lang; c_subtitle_text; c_source;
   c_snippet_count; c_snippets; c_errors; c_ingested_at].

Definition column_name (c : column) : pystr :=
  match c with
  | c_video_id => py "video_id"
  | c_subtitle_lang => py "subtitle_lang"
  | c_subtitle_text => py "subtitle_text"
  | c_source => py "source"
  | c_snippet_count => py "snippet_count"
  | c_snippets => py "snippets"
  | c_errors => py "errors"
  | c_ingested_at => py "ingested_at"
  end.

(** The type-fixing loop at the head of [upsert_subtitles_raw], on one
    snippet: [int(s.get("idx") or 0)], [float(s.get("start") or 0.0)], ... *)
Definition fix_snippet (s : snippet) : snippet :=
  Snippet (Some (default 0 (sn_idx s)))
          (Some (default 0%Q (sn_start s)))
          (Some (default 0%Q (sn_end s)))
          (Some (default 0%Q (sn_duration s)))
          (sn_text s).

(** The loop on one row: [snippet_count] is already an integer here. *)
Definition fix_row (r : row) : row :=
  Row (video_id r) (subtitle_lang r) (subtitle_text r) (source r)
      (snippet_count r) (map fix_snippet (snippets r)) (errors r)
      (ingested_at r).

(** [s.split(sep)] for a one-character separator, with [cur] the piece
    being read. *)
Fixpoint split_from (sep : N) (cur : pystr) (s : pystr) : list pystr :=
  match s with
  | [] => [cur]
  | c :: r =>
      if N.eqb c sep then cur :: split_from sep [] r
      else split_from sep (cur ++ [c]) r
  end.

Definition comma : N := 44%N.

(** [[k.strip() for k in dedupe_on.split(",") if k.strip()]] *)
Definition keys_of (dedupe_on : pystr) : list pystr :=
  map strip (List.filter (fun k => nonempty (strip k))
                         (split_from comma [] dedupe_on)).

Definition default_dedupe_on : pystr := py "video_id,subtitle_lang".

(** The loop of [_build_merge_condition_from_keys]. *)
Fixpoint conds_of (keys : list pystr) : list pystr :=
  match keys with
  | [] => []
  | k :: rest =>
      let k := strip k in
      if negb (nonempty k) then conds_of rest
      else (py "T." ++ k ++ py " IS NOT DISTINCT FROM S." ++ k) :: conds_of rest
  end.

(** [_build_merge_condition_from_keys(keys)]: the text of the ON clause. *)
Definition _build_merge_condition_from_keys (keys : list pystr) : pystr :=
  let conds := conds_of keys in
  if nonempty_list conds then join (py " AND ") conds else py "FALSE".

(** *** The MERGE statement and what it does

    The statement [upsert_subtitles_raw] sends has a fixed shape; only its ON
    clause varies. Its meaning is that of MERGE in the warehouse. *)

(** The ON clause: [FALSE], or a conjunction of null-safe equalities
    [T.k IS NOT DISTINCT FROM S.k]. *)
Inductive on_clause :=
| OnFalse
| OnKeys (names : list pystr).

Definition on_clause_of (keys : list pystr) : on_clause :=
  match List.filter nonempty (map strip keys) with
  | [] => OnFalse
  | names => OnKeys names
  end.

Definition render (c : on_clause) : pystr :=
  match c with
  | OnFalse => py "FALSE"
  | OnKeys names =>
      join (py " AND ")
        (map (fun k => py "T." ++ k ++ py " IS NOT DISTINCT FROM S." ++ k) names)
  end.

(** A scalar value of a row; [None] is NULL. *)
Inductive scalar :=
| SStr (s : pystr)
| SInt (z : Z).

#[global] Instance scalar_eq_dec : EqDecision scalar.
Proof. solve_decision. Defined.

(** The columns a comparison can name, and the value of one in a row; the
    repeated columns cannot be compared. *)
Definition scalar_of (c : column) (r : row) : option scalar :=
  match c with
  | c_video_id => Some (SStr (video_id r))
  | c_subtitle_lang => SStr <$> subtitle_lang r
  | c_subtitle_text => SStr <$> subtitle_text r
  | c_source => SStr <$> source r
  | c_snippet_count => SInt <$> snippet_count r
  | c_ingested_at => SStr <$> ingested_at r
  | c_snippets | c_errors => None
  end.

Definition comparable (c : column) : bool :=
  match c with
  | c_snippets | c_errors => false
  | _ => true
  end.

(** The comparable column a name of the ON clause denotes, if any. *)
Definition column_of_name (k : pystr) : option column :=
  List.find (fun c => comparable c && bool_decide (column_name c = k)) columns.

(** The key columns of an ON clause; [None] when a name denotes no
    comparable column, in which case the warehouse rejects the query. *)
Fixpoint resolve (names : list pystr) : option (list column) :=
  match names with
  | [] => Some []
  | k :: rest =>
      c ← column_of_name k;
      cs ← resolve rest;
      Some (c :: cs)
  end.

(** The key of a row: its values in the key columns. *)
Definition key (ks : list column) (r : row) : list (option scalar) :=
  map (fun c => scalar_of c r) ks.

(** Whether the ON clause holds of a target row and a source row:
    [IS NOT DISTINCT FROM] is equality that takes NULL as a value. *)
Definition matches (ks : option (list column)) (t s : row) : bool :=
  match ks with
  | None => false
  | Some ks => bool_decide (key ks t = key ks s)
  end.

(** [WHEN MATCHED THEN UPDATE SET ...]: every column but [video_id] is taken
    from the source row; [snippets_fixed] is the array [snippets] again. *)
Definition update_row (t s : row) : row :=
  Row (video_id t) (subtitle_lang s) (subtitle_text s) (source s)
      (snippet_count s) (snippets s) (errors s) (ingested_at s).

(** [WHEN NOT MATCHED THEN INSERT (...) VALUES (...)]: all eight columns. *)
Definition insert_row (s : row) : row :=
  Row (video_id s) (subtitle_lang s) (subtitle_text s) (source s)
      (snippet_count s) (snippets s) (errors s) (ingested_at s).

(** A target row under the MERGE: unchanged without a matching source row,
    updated from the only matching one, and an error when several match. *)
Definition merge_target (ks : option (list column)) (src : list row) (t : row)
  : option row :=
  match List.filter (matches ks t) src with
  | [] => Some t
  | [s] => Some (update_row t s)
  | _ => None
  end.

Definition unmatched (ks : option (list column)) (tgt : list row) (s : row) : bool :=
  negb (existsb (fun t => matches ks t s) tgt).

(** The target table after the MERGE, or [None] when it fails. *)
Definition merge_rows (ks : option (list column)) (tgt src : list row)
  : option (list row) :=
  tgt' ← mapM (merge_target ks src) tgt;
  Some (tgt' ++ map insert_row (List.filter (unmatched ks tgt) src)).

(** The key columns of a clause: [Some None] for [FALSE], which matches
    nothing; [None] when the query is rejected. *)
Definition clause_keys (c : on_clause) : option (option (list column)) :=
  match c with
  | OnFalse => Some None
  | OnKeys names => Some <$> resolve names
  end.

(** *** The client calls *)

(** The two tables the loader touches: [SUBTITLES_RAW] and
    [SUBTITLES_RAW_TMP]; [None] when the table does not exist. *)
Record warehouse := Warehouse {
  dest : option (list row);
  tmp : option (list row)
}.

(** A computation on the warehouse that returns or raises. *)
Definition bq (A : Type) : Type := warehouse -> warehouse * result A.

#[global] Instance bq_ret : MRet bq := fun _ v w => (w, Ok v).

#[global] Instance bq_bind : MBind bq := fun _ _ k m w =>
  match m w with
  | (w', Ok v) => k v w'
  | (w', Raise e) => (w', Raise e)
  end.

(** [client.delete_table(tmp_table_id, not_found_ok=True)] *)
Definition delete_tmp : bq unit :=
  fun w => (Warehouse (dest w) None, Ok tt).

(** [client.get_table(table_id)] *)
Definition get_table : bq unit :=
  fun w => match dest w with
           | Some _ => (w, Ok tt)
           | None => (w, Raise (py "NotFound"))
           end.

(** [client.load_table_from_json(rows, tmp_table_id, ...).result()] with
    [WRITE_TRUNCATE] and the schema of the destination table. *)
Definition load_table_from_json (rows : list row) : bq unit :=
  fun w => (Warehouse (dest w) (Some rows), Ok tt).

(** [_load_tmp(table, rows)] *)
Definition _load_tmp (rows : list row) : bq unit :=
  _ ← delete_tmp;
  _ ← get_table;
  load_table_from_json rows.

(** [client.query(query).result()] for the MERGE with the given ON clause. *)
Definition query_merge (c : on_clause) : bq unit :=
  fun w =>
    match clause_keys c, dest w, tmp w with
    | Some ks, Some tgt, Some src =>
        match merge_rows ks tgt src with
        | Some tgt' => (Warehouse (Some tgt') (tmp w), Ok tt)
        | None => (w, Raise (py "BadRequest"))
        end
    | _, _, _ => (w, Raise (py "BadRequest"))
    end.

(** [upsert_subtitles_raw(rows, dedupe_on)] *)
Definition upsert_subtitles_raw (rows : list row) (dedupe_on : pystr) : bq unit :=
  if negb (nonempty_list rows) then mret tt
  else
    let rows := map fix_row rows in
    _ ← _load_tmp rows;
    let keys := keys_of dedupe_on in
    _ ← query_merge (on_clause_of keys);
    delete_tmp.

End Upsert.

(** ** The JSONL loader's merge of subtitles ([ingest/load_to_bq.py]) *)

Module LoadToBq.

(** A row of [subtitles_segments]; the staging table is autodetected, so
    every column is nullable. *)
Record seg_row := SegRow {
  sg_video_id : option pystr;
  sg_lang : option pystr;
  sg_idx : option Z;
  sg_start_sec : option Q;
  sg_dur_sec : option Q;
  sg_text : option pystr
}.

(** A row of [subtitles_full]. *)
Record full_row := FullRow {
  fl_video_id : option pystr;
  fl_lang : option pystr;
  fl_full_text : option pystr
}.

(** [T.k = S.k]: a NULL on either side makes the comparison fail. *)
Definition sql_eq {A} `{EqDecision A} (a b : option A) : bool :=
  match a, b with
  | Some x, Some y => bool_decide (x = y)
  | _, _ => false
  end.

(** [ON T.video_id = S.video_id AND T.lang = S.lang AND T.idx = S.idx] *)
Definition seg_matches (t s : seg_row) : bool :=
  sql_eq (sg_video_id t) (sg_video_id s) && sql_eq (sg_lang t) (sg_lang s) &&
  sql_eq (sg_idx t) (sg_idx s).

(** The first MERGE: only [WHEN NOT MATCHED THEN INSERT]. *)
Definition merge_segments (tgt src : list seg_row) : list seg_row :=
  tgt ++ List.filter (fun s => negb (existsb (fun t => seg_matches t s) tgt)) src.

(** [ON T.video_id = S.video_id AND T.lang = S.lang] *)
Definition full_matches (t s : full_row) : bool :=
  sql_eq (fl_video_id t) (fl_video_id s) && sql_eq (fl_lang t) (fl_lang s).

(** The second MERGE: [UPDATE SET T.full_text = S.full_text] on a match,
    an error when several staged rows match one row, an insert otherwise. *)
Definition merge_full (tgt src : list full_row) : option (list full_row) :=
  tgt' ← mapM (fun t =>
                 match List.filter (full_matches t) src with
                 | [] => Some t
                 | [s] => Some (FullRow (fl_video_id t) (fl_lang t) (fl_full_text s))
                 | _ => None
                 end) tgt;
  Some (tgt' ++ List.filter
                  (fun s => negb (existsb (fun t => full_matches t s) tgt)) src).

(** [_merge_subtitles(seg_stg, full_stg)] on the two destination tables; a
    staging table that was not created is [None]. *)
Definition _merge_subtitles (seg_stg : option (list seg_row))
    (full_stg : option (list full_row))
    (tables : list seg_row * list full_row)
  : result (list seg_row * list full_row) :=
  let segments := match seg_stg with
                  | Some src => merge_segments (fst tables) src
                  | None => fst tables
                  end in
  match full_stg with
  | Some src =>
      match merge_full (snd tables) src with
      | Some full => Ok (segments, full)
      | None => Raise (py "BadRequest")
      end
  | None => Ok (segments, snd tables)
  end.

End LoadToBq.

(** ** Jittered sleep ([ingest/common.py]) *)

Module Jitter.

(** The argument [jitter_sleep] passes to [time.sleep], where [r] is the
    value [random.random()] returned. *)
Definition jitter_sleep_seconds (r base_seconds jitter_span_seconds : Q) : Q :=
  (base_seconds + r * pymax jitter_span_seconds 0)%Q.

End Jitter.

(** ** Channel and video listing ([ingest/p01_fetch_channels.py],
    [ingest/p02_fetch_videos.py]) *)

Module Listing.

(** [len(range(0, stop, step))] for a positive [step]. *)
Definition range_len (stop step : nat) : nat :=
  if (stop =? 0)%nat then 0%nat else ((stop - 1) / step + 1)%nat.

(** [range(0, stop, step)] for a positive [step]. *)
Definition range_from0 (stop step : nat) : list nat :=
  map (fun k => (k * step)%nat) (seq 0 (range_len stop step)).

(** [xs[i : i + n]] *)
Definition slice {A} (xs : list A) (i n : nat) : list A := take n (drop i xs).

(** [_chunked(xs, n)]: [range] refuses a zero step and is empty for a
    negative one. *)
Definition _chunked {A} (xs : list A) (n : Z) : result (list (list A)) :=
  if n =? 0 then Raise (py "ValueError")
  else if n <? 0 then Ok []
  else Ok (map (fun i => slice xs i (Z.to_nat n))
               (range_from0 (length xs) (Z.to_nat n))).

(** One step of [[seen.setdefault(x, x) for x in ids if x not in seen]]:
    the keys of [seen] in insertion order, and the list built so far. *)
Definition setdefault_step (st : list pystr * list pystr) (x : pystr)
  : list pystr * list pystr :=
  if bool_decide (x ∈ fst st) then st else (fst st ++ [x], snd st ++ [x]).

(** The de-duplication of [p01_fetch_channels.main]. *)
Definition dedupe_ids (ids : list pystr) : list pystr :=
  snd (fold_left setdefault_step ids ([], [])).

(** One insertion of [dict.fromkeys]: a key already present keeps its
    place. *)
Definition fromkeys_step (ks : list pystr) (x : pystr) : list pystr :=
  if bool_decide (x ∈ ks) then ks else ks ++ [x].

(** [list(dict.fromkeys(vids))], the de-duplication of
    [p02_fetch_videos.main]. *)
Definition fromkeys_list (vids : list pystr) : list pystr :=
  fold_left fromkeys_step vids [].

(** [[s.strip() for s in text.split(",") if s.strip()]], how
    [p01_fetch_channels.main] reads [--channels]. *)
Definition split_ids (text : pystr) : list pystr :=
  map strip (List.filter (fun k => nonempty (strip k))
                         (Upsert.split_from Upsert.comma [] text)).

End Listing.

(** ** ISO-8601 durations ([ingest/p02_fetch_videos.py]) *)

Module IsoDuration.

Section Parser.

(** [Py_UNICODE_TODECIMAL], as for the WebVTT timestamps. *)
Variable todecimal : N -> option Z.

(** [\d+] or [\d*] at the head of [s]: the longest run of digits and what
    follows it. *)
Fixpoint span_digits (s : pystr) : pystr * pystr :=
  match s with
  | [] => ([], [])
  | c :: r =>
      if WebVtt.is_digit todecimal c then
        let '(d, rest) := span_digits r in (c :: d, rest)
      else ([], s)
  end.

(** An optional group [(?:(\d+)L)?] at the head of [s], for a unit letter
    [L] that is no digit: the digits when the group matches, and what is
    left to match. *)
Definition unit_group (letter : N) (s : pystr) : option pystr * pystr :=
  match span_digits s with
  | (c :: d, l :: rest) =>
      if N.eqb l letter then (Some (c :: d), rest) else (None, s)
  | _ => (None, s)
  end.

Definition letter_S : N := 83%N.

(** The optional group [(?:(\d+(?:\.\d+)?)S)?]. *)
Definition seconds_group (s : pystr) : option pystr * pystr :=
  match span_digits s with
  | (c :: d, l :: rest) =>
      if N.eqb l letter_S then (Some (c :: d), rest)
      else if N.eqb l WebVtt.dot then
        match span_digits rest with
        | (c' :: d', l' :: rest') =>
            if N.eqb l' letter_S
            then (Some ((c :: d) ++ [WebVtt.dot] ++ (c' :: d')), rest')
            else (None, s)
        | _ => (None, s)
        end
      else (None, s)
  | _ => (None, s)
  end.

(** [$] without [re.MULTILINE]: the end of the string, or just before a
    final newline. *)
Definition at_end (s : pystr) : bool :=
  match s with
  | [] => true
  | [c] => N.eqb c newline
  | _ => false
  end.

(** The groups [days], [h], [m], [s] of a match of [_ISO_DUR]. *)
Record iso_match := IsoMatch {
  g_days : option pystr;
  g_h : option pystr;
  g_m : option pystr;
  g_s : option pystr
}.

(** [_ISO_DUR.match(s)] *)
Definition _ISO_DUR_match (s : pystr) : option iso_match :=
  match s with
  | 80%N :: r =>
      let '(days, r) := unit_group 68%N r in
      match r with
      | 84%N :: r1 =>
          let '(h, r2) := unit_group 72%N r1 in
          let '(m, r3) := unit_group 77%N r2 in
          let '(sec, r4) := seconds_group r3 in
          if at_end r4 then Some (IsoMatch days h m sec) else None
      | _ => if at_end r then Some (IsoMatch days None None None) else None
      end
  | _ => None
  end.

(** [float(g or 0)] for a group of a match. *)
Definition group_value (g : option pystr) : Q :=
  match g with
  | Some d => WebVtt.py_float todecimal d
  | None => 0
  end.

(** [iso8601_to_seconds(s)] *)
Definition iso8601_to_seconds (s : option pystr) : Q :=
  match s with
  | None | Some [] => 0
  | Some s =>
      match _ISO_DUR_match s with
      | None => 0
      | Some m =>
          (group_value (g_days m) * 86400 + group_value (g_h m) * 3600
           + group_value (g_m m) * 60 + group_value (g_s m))%Q
      end
  end.

End Parser.

End IsoDuration.

(** ** Paging through a playlist ([ingest/p02_fetch_videos.py]) *)

Module Playlist.

(** How one GET of a playlist page ends for [playlist_items]: a page of
    items with its [nextPageToken]; an attempt that is retried (status 429,
    a status [raise_for_status] rejects, or a [RequestException]); or any
    other exception. An item without a video id is [None]. *)
Inductive attempt :=
| Page (items : list (option pystr)) (next : option pystr)
| Retryable
| Fatal (e : pystr).

(** [get n token]: the GET issued in slot [n] with page token [token]. *)
Definition pages := nat -> option pystr -> attempt.

(** The [for delay in backoff_sequence()] loop on one page: the first
    attempt that is not retried, among the remaining delays. *)
Fixpoint fetch_page (get : pages) (delays : list Q) (n : nat)
    (token : option pystr) : option attempt :=
  match delays with
  | [] => None
  | _ :: rest =>
      match get n token with
      | Retryable => fetch_page get rest (S n) token
      | a => Some a
      end
  end.

(** [for it in items: yield it["contentDetails"]["videoId"]], collected. *)
Fixpoint video_ids (items : list (option pystr)) : result (list pystr) :=
  match items with
  | [] => Ok []
  | Some v :: rest => vs ← video_ids rest; Ok (v :: vs)
  | None :: _ => Raise (py "KeyError")
  end.

(** [list(playlist_items(playlist_id))]: the [while True] loop run at most
    [fuel] times from the state [(token, out)]; [None] when the loop has
    not returned within [fuel] rounds. Each round uses three slots. *)
Fixpoint playlist_items (fuel : nat) (get : pages) (n : nat)
    (token : option pystr) (out : list pystr) : option (result (list pystr)) :=
  match fuel with
  | O => None
  | S fuel' =>
      match fetch_page get Backoff.default_sequence n token with
      | Some (Page items next) =>
          match video_ids items with
          | Raise e => Some (Raise e)
          | Ok vs =>
              if truthy next then playlist_items fuel' get (n + 3) next (out ++ vs)
              else Some (Ok (out ++ vs))
          end
      | Some (Fatal e) => Some (Raise e)
      | Some Retryable | None =>
          if truthy token then playlist_items fuel' get (n + 3) token out
          else Some (Ok out)
      end
  end.

End Playlist.

(** ** The batch loop of the subtitle fetcher ([ingest/p04_fetch_subtitles.py]) *)

Module FetchMain.
Import Fetch.

Section Loop.
(** [B i]: the services as they answer while the video at position [i] of
    the list is fetched. *)
Variable B : nat -> backend.
Variable todecimal : N -> option Z.
Variables pref fb : pystr.

(** Iteration [i] of [for vid in ids] in [main] on [seg_rows] and
    [full_rows]; the pause has no result. *)
Definition main_step (i : nat) (acc : list seg_row * list full_row) (vid : pystr)
  : result (list seg_row * list full_row) :=
  '(s, f) ← fetch_subs_for_video (B i) todecimal vid pref fb;
  if nonempty_list s then
    Ok (fst acc ++ s,
        match f with
        | Some f => snd acc ++ [f]
        | None => snd acc
        end)
  else Ok acc.

Fixpoint main_loop (i : nat) (ids : list pystr)
    (acc : list seg_row * list full_row)
  : result (list seg_row * list full_row) :=
  match ids with
  | [] => Ok acc
  | vid :: rest => acc' ← main_step i acc vid; main_loop (S i) rest acc'
  end.

(** The rows [main] writes to the two output files. *)
Definition main_rows (ids : list pystr) : result (list seg_row * list full_row) :=
  main_loop 0 ids ([], []).

End Loop.

End FetchMain.

(** ** The subtitle ingestion script ([scripts/ingest_subtitles.py]) *)

Module IngestSubtitles.

(** [ensure_tables()]: create the table, empty, when it does not exist. *)
Definition ensure_tables : Upsert.bq unit :=
  fun w => (Upsert.Warehouse (Some (default [] (Upsert.dest w))) (Upsert.tmp w), Ok tt).

(** The dictionary [get_subtitles] returns, as a row for the loader. *)
Definition to_snippet (s : Json3.snippet) : Upsert.snippet :=
  Upsert.Snippet (Some (Z.of_nat (Json3.sn_idx s))) (Some (Json3.sn_start s))
                 (Some (Json3.sn_end s)) (Some (Json3.sn_duration s))
                 (Some (Json3.sn_text s)).

Definition to_row (r : YtSubtitles.subtitle_row) : Upsert.row :=
  Upsert.Row (YtSubtitles.video_id r) (YtSubtitles.subtitle_lang r)
             (YtSubtitles.subtitle_text r) (YtSubtitles.source r)
             (Some (Z.of_nat (YtSubtitles.snippet_count r)))
             (map to_snippet (YtSubtitles.snippets r))
             (YtSubtitles.errors r) (Some (YtSubtitles.ingested_at r)).

(** [[get_subtitles(v) for v in video_ids]] from position [i] on, where
    [YB i] is how the services and the clock answer for the video at
    position [i]. *)
Fixpoint fetch_rows (YB : nat -> YtSubtitles.backend) (i : nat)
    (video_ids : list pystr) : result (list Upsert.row) :=
  match video_ids with
  | [] => Ok []
  | v :: rest =>
      r ← YtSubtitles.get_subtitles (YB i) v None;
      rs ← fetch_rows YB (S i) rest;
      Ok (to_row r :: rs)
  end.

(** [main(video_ids)] *)
Definition main (YB : nat -> YtSubtitles.backend) (video_ids : list pystr)
  : Upsert.bq unit :=
  fun w =>
    match ensure_tables w with
    | (w1, Raise e) => (w1, Raise e)
    | (w1, Ok _) =>
        match fetch_rows YB 0 video_ids with
        | Raise e => (w1, Raise e)
        | Ok rows =>
            Upsert.upsert_subtitles_raw rows (py "video_id,subtitle_lang") w1
        end
    end.

End IngestSubtitles.

(** * Properties *)

Module BackoffFacts.
Import Backoff.

Example default_sequence_values : default_sequence = [1#1; 2#1; 4#1]%Q.
Proof. vm_compute. reflexivity. Qed.

Lemma pymin_idem (x c : Q) : pymin (pymin x c) c = pymin x c.
Proof.
  unfold pymin. destruct (c ?= x)%Q eqn:E.
  - now rewrite E.
  - assert (H : (c ?= c)%Q = Eq) by (apply Qeq_alt; reflexivity).
    now rewrite H.
  - now rewrite E.
Qed.

Lemma pymin_le_cap (x c : Q) : (pymin x c <= c)%Q.
Proof.
  unfold pymin. destruct (c ?= x)%Q eqn:E.
  - apply Qeq_alt in E. rewrite E. apply Qle_refl.
  - apply Qle_refl.
  - apply Qgt_alt in E. now apply Qlt_le_weak.
Qed.

Lemma pymin_le_left (x c : Q) : (pymin x c <= x)%Q.
Proof.
  unfold pymin. destruct (c ?= x)%Q eqn:E.
  - apply Qle_refl.
  - apply Qlt_alt in E. now apply Qlt_le_weak.
  - apply Qle_refl.
Qed.

Lemma pymin_below (x c : Q) : (x <= c)%Q -> pymin x c = x.
Proof.
  intros H. unfold pymin. destruct (c ?= x)%Q eqn:E; try reflexivity.
  apply Qlt_alt in E. exfalso. exact (Qlt_not_le _ _ E H).
Qed.

Lemma pymin_above (x c : Q) : (c < x)%Q -> pymin x c = c.
Proof.
  intros H. unfold pymin. destruct (c ?= x)%Q eqn:E; try reflexivity; exfalso.
  - apply Qeq_alt in E. rewrite E in H. exact (Qlt_irrefl _ H).
  - apply Qgt_alt in E. exact (Qlt_irrefl _ (Qlt_trans _ _ _ H E)).
Qed.

Lemma backoff_loop_length n d cap f : length (backoff_loop n d cap f) = n.
Proof. revert d. induction n as [|n IH]; intros d; simpl; [|rewrite IH]; reflexivity. Qed.

Lemma backoff_loop_head n d cap f v :
  backoff_loop n d cap f !! 0%nat = Some v -> v = pymin d cap.
Proof. destruct n; simpl; [discriminate|]. now intros [= <-]. Qed.

(** Two neighbouring values of the loop, once the local [delay] is at most
    the cap (which holds from the second iteration on). *)
Lemma backoff_loop_step n d cap f i p v :
  pymin d cap = d ->
  backoff_loop n d cap f !! i = Some p ->
  backoff_loop n d cap f !! S i = Some v ->
  v = pymin (p * f) cap.
Proof.
  revert d i. induction n as [|n IH]; intros d i Hd Hp Hv; [discriminate|].
  destruct i as [|i]; simpl in *.
  - injection Hp as <-. apply backoff_loop_head in Hv.
    rewrite pymin_idem in Hv. now rewrite Hd.
  - eapply (IH (pymin (d * f) cap) i); eauto using pymin_idem.
Qed.

Lemma backoff_loop_le_cap n d cap f i v :
  backoff_loop n d cap f !! i = Some v -> (v <= cap)%Q.
Proof.
  revert d i. induction n as [|n IH]; intros d i Hv; [discriminate|].
  destruct i as [|i]; simpl in *.
  - injection Hv as <-. apply pymin_le_cap.
  - eauto.
Qed.

(** C4, as stated, fails: with [base] above [cap] the first value is the
    cap, not [base], and the second value need not be
    [min(first * factor, cap)]. *)
Lemma backoff_first_value_is_capped :
  backoff_sequence 3 (20#1) (16#1) (1#2) = [16#1; 20#2; 20#4]%Q /\
  ~ ((16#1) == (20#1))%Q /\
  ~ ((20#2) == pymin ((16#1) * (1#2)) (16#1))%Q.
Proof.
  split; [vm_compute; reflexivity|].
  split; intros H; vm_compute in H; discriminate.
Qed.

(** C4 (amended): for [max_tries >= 0] the sequence has exactly [max_tries]
    values; the first is [min(base, cap)] (so [base] when [base <= cap]);
    the second is [min(base * factor, cap)]; every value after the second,
    and the second too when [base <= cap], is [min(previous * factor, cap)];
    every value is at most [cap]; a later value is at most
    [previous * factor] when [base <= cap], and also when [factor > 1] and
    [cap >= 0]. *)
Theorem backoff_sequence_spec (max_tries : Z) (base cap factor : Q) :
  0 <= max_tries ->
  let s := backoff_sequence max_tries base cap factor in
  Z.of_nat (length s) = max_tries /\
  (forall v, s !! 0%nat = Some v -> v = pymin base cap) /\
  ((base <= cap)%Q -> forall v, s !! 0%nat = Some v -> v = base) /\
  (forall v, s !! 1%nat = Some v -> v = pymin (base * factor) cap) /\
  (forall i p v, s !! i = Some p -> s !! S i = Some v ->
     (1 <= i)%nat \/ (base <= cap)%Q -> v = pymin (p * factor) cap) /\
  (forall i v, s !! i = Some v -> (v <= cap)%Q) /\
  (forall i p v, s !! i = Some p -> s !! S i = Some v ->
     (1 <= i)%nat \/ (base <= cap)%Q \/ (1 < factor /\ 0 <= cap)%Q ->
     (v <= p * factor)%Q).
Proof.
  intros Hn s. subst s. unfold backoff_sequence.
  assert (Hstep : forall i p v,
    backoff_loop (Z.to_nat max_tries) base cap factor !! i = Some p ->
    backoff_loop (Z.to_nat max_tries) base cap factor !! S i = Some v ->
    (1 <= i)%nat \/ (base <= cap)%Q -> v = pymin (p * factor) cap).
  { intros i p v Hp Hv [Hi | Hb].
    - destruct (Z.to_nat max_tries) as [|n]; [discriminate|].
      destruct i as [|i]; [lia|]. simpl in Hp, Hv.
      eapply backoff_loop_step; eauto using pymin_idem.
    - eapply backoff_loop_step; eauto using pymin_below. }
  repeat split.
  - rewrite backoff_loop_length. lia.
  - apply backoff_loop_head.
  - intros Hb v Hv. apply backoff_loop_head in Hv. now rewrite pymin_below in Hv.
  - intros v Hv. destruct (Z.to_nat max_tries) as [|n]; [discriminate|].
    simpl in Hv. apply backoff_loop_head in Hv. now rewrite pymin_idem in Hv.
  - exact Hstep.
  - apply backoff_loop_le_cap.
  - intros i p v Hp Hv Hc.
    destruct (Qlt_le_dec cap base) as [Hgt|Hle].
    + destruct Hc as [Hi|[Hb|[Hf Hcap]]].
      * rewrite (Hstep i p v Hp Hv (or_introl Hi)). apply pymin_le_left.
      * exfalso. exact (Qlt_not_le _ _ Hgt Hb).
      * destruct i as [|i].
        2:{ assert (Hi : (1 <= S i)%nat) by lia.
            rewrite (Hstep (S i) p v Hp Hv (or_introl Hi)). apply pymin_le_left. }
        pose proof (backoff_loop_le_cap _ _ _ _ _ _ Hv) as Hvc.
        apply backoff_loop_head in Hp.
        rewrite Hp, (pymin_above base cap Hgt). nra.
    + rewrite (Hstep i p v Hp Hv (or_intror Hle)). apply pymin_le_left.
Qed.

Lemma backoff_sequence_spec_witness :
  Z.of_nat (length (backoff_sequence 3 1 16 2)) = 3 /\
  (forall v, backoff_sequence 3 1 16 2 !! 0%nat = Some v -> v = pymin 1 16).
Proof.
  pose proof (backoff_sequence_spec 3 1 16 2 ltac:(lia)) as H.
  split; [exact (proj1 H) | exact (proj1 (proj2 H))].
Defined.

End BackoffFacts.

Module LangPolicyFacts.
Import LangPolicy.

Definition en_all : list (pystr * unit) :=
  [(py "en", tt); (py "en-US", tt); (py "a.en", tt); (py "ko", tt)].

Example select_exact : best_lang_key en_all (py "en") (py "ko") = Some (py "en").
Proof. vm_compute. reflexivity. Qed.

Example select_variant :
  best_lang_key [(py "en-US", tt); (py "ko", tt)] (py "en") (py "ko") = Some (py "en-US").
Proof. vm_compute. reflexivity. Qed.

Example select_auto :
  best_lang_key [(py "a.en", tt); (py "ko", tt)] (py "en") (py "ko") = Some (py "a.en").
Proof. vm_compute. reflexivity. Qed.

Example select_fallback :
  best_lang_key [(py "ko", tt)] (py "en") (py "ko") = Some (py "ko").
Proof. vm_compute. reflexivity. Qed.

Example select_none :
  best_lang_key [(py "fr", tt)] (py "en") (py "ko") = None.
Proof. vm_compute. reflexivity. Qed.

Lemma endswith_app_dash (s : pystr) : endswith (s ++ py "-") (py "-") = true.
Proof. unfold endswith. rewrite rev_app_distr. reflexivity. Qed.

Lemma endswith_auto_prefix (s : pystr) :
  endswith (py "a." ++ s) (py "-") = endswith s (py "-").
Proof.
  unfold endswith. rewrite rev_app_distr.
  destruct (rev s) as [|c r]; reflexivity.
Qed.

(** C1, as stated, fails for a code that itself ends in a dash: the first
    entry of the order is then scanned as a prefix, not looked up. *)
Lemma best_lang_key_dash_code :
  best_lang_key [(py "en-us", tt)] (py "en-") (py "ko") = Some (py "en-us") /\
  policy_select [py "en-us"] (py "en-") (py "ko") = None.
Proof. split; vm_compute; reflexivity. Qed.

(** C1 (amended): when neither code ends in a dash, [best_lang_key] returns
    the first match among: exact preferred key, first key (in iteration
    order) starting with the preferred code and a dash, exact key
    [a.preferred], then the same three for the fallback code; [None] when
    none of the six matches. *)
Theorem best_lang_key_policy {V} (available : list (pystr * V)) (pref fb : pystr) :
  endswith pref (py "-") = false ->
  endswith fb (py "-") = false ->
  best_lang_key available pref fb = policy_select (keys available) pref fb.
Proof.
  intros Hp Hf. unfold best_lang_key, policy_select, three_checks.
  cbn [scan_order].
  rewrite Hp, Hf, !endswith_app_dash, !endswith_auto_prefix, Hp, Hf.
  repeat (case_bool_decide || case_match); congruence.
Qed.

Lemma best_lang_key_policy_witness :
  best_lang_key en_all (py "en") (py "ko")
  = policy_select (keys en_all) (py "en") (py "ko").
Proof. apply (best_lang_key_policy en_all (py "en") (py "ko")); reflexivity. Defined.

End LangPolicyFacts.

Module Json3Facts.
Import Json3.

(** An event is kept when its fragment list is non-empty and its text is. *)
Definition retained (ev : event) : bool :=
  nonempty_list (seg_list ev) && nonempty (event_text ev).

(** The segment a kept event becomes at position [i]. *)
Definition segment_of (i : nat) (ev : event) : segment :=
  Segment i (ms_to_sec (default 0 (tStartMs ev)))
            (ms_to_sec (default 0 (dDurationMs ev))) (event_text ev).

Definition events_of (json3_obj : option json3) : list event :=
  match json3_obj with
  | Some o => default [] (events o)
  | None => []
  end.

Definition ev_hello : event :=
  Event (Some 1500) (Some 2000) (Some [Frag (Some (py "hello")); Frag (Some [10%N])]).
Definition ev_blank : event := Event (Some 3000) None (Some [Frag (Some (py "  "))]).
Definition ev_nosegs : event := Event (Some 3500) (Some 10) None.
Definition ev_bye : event := Event None (Some 40) (Some [Frag None; Frag (Some (py "bye"))]).

Example parse_json3_drops_and_renumbers :
  parse_json3_events (Some (Json3 (Some [ev_hello; ev_blank; ev_nosegs; ev_bye])))
  = ([Segment 0 (1500 # 1000) (2000 # 1000) (py "hello");
      Segment 1 (0 # 1000) (40 # 1000) (py "bye")],
     py "hello bye").
Proof. vm_compute. reflexivity. Qed.

Lemma nonempty_false (s : pystr) : nonempty s = false <-> s = [].
Proof. destruct s; simpl; split; congruence. Qed.

Lemma nonempty_list_false {A} (l : list A) : nonempty_list l = false <-> l = [].
Proof. destruct l; simpl; split; congruence. Qed.

Lemma retained_false (ev : event) :
  retained ev = false <-> seg_list ev = [] \/ event_text ev = [].
Proof.
  unfold retained. rewrite andb_false_iff, nonempty_list_false, nonempty_false.
  reflexivity.
Qed.

Lemma step_retained (a : acc) (ev : event) :
  step a ev =
    if retained ev then
      Acc (acc_segs a ++ [(acc_idx a, ms_to_sec (default 0 (tStartMs ev)),
                           ms_to_sec (default 0 (dDurationMs ev)), event_text ev)])
          (acc_full a ++ [event_text ev]) (S (acc_idx a))
    else a.
Proof.
  unfold step, retained.
  destruct (nonempty_list (seg_list ev)), (nonempty (event_text ev)); reflexivity.
Qed.

(** The loop, started from any accumulator, appends the kept events in
    order and numbers them from the current index. *)
Lemma fold_step (evs : list event) (a : acc) :
  let kept := List.filter retained evs in
  fold_left step evs a =
    Acc (acc_segs a ++
           imap (fun i ev => ((acc_idx a + i)%nat,
                              ms_to_sec (default 0 (tStartMs ev)),
                              ms_to_sec (default 0 (dDurationMs ev)),
                              event_text ev)) kept)
        (acc_full a ++ map event_text kept)
        (acc_idx a + length kept).
Proof.
  revert a. induction evs as [|ev evs IH]; intros a; simpl.
  - rewrite !app_nil_r, Nat.add_0_r. now destruct a.
  - rewrite IH, step_retained. destruct (retained ev); simpl.
    + rewrite <- !app_assoc. simpl. rewrite Nat.add_0_r.
      f_equal; [|lia]. do 2 f_equal.
      apply imap_ext. intros i x _. simpl. do 3 f_equal. lia.
    + reflexivity.
Qed.

Lemma parse_json3_events_segments (json3_obj : option json3) :
  fst (parse_json3_events json3_obj)
  = imap segment_of (List.filter retained (events_of json3_obj)).
Proof.
  unfold parse_json3_events. fold (events_of json3_obj). simpl.
  rewrite fold_step. simpl.
  change (map ?f ?l) with (f <$> l). rewrite fmap_imap.
  apply imap_ext. reflexivity.
Qed.

Lemma parse_json3_events_full (json3_obj : option json3) :
  snd (parse_json3_events json3_obj)
  = join space (map text (fst (parse_json3_events json3_obj))).
Proof.
  rewrite parse_json3_events_segments.
  unfold parse_json3_events. fold (events_of json3_obj). simpl.
  rewrite fold_step. simpl. f_equal.
  change (map ?f ?l) with (f <$> l). rewrite fmap_imap.
  rewrite <- (imap_const event_text). apply imap_ext. reflexivity.
Qed.

Lemma parse_json3_events_indices (json3_obj : option json3) :
  let out := fst (parse_json3_events json3_obj) in
  map idx out = seq 0 (length out).
Proof.
  intros out. subst out. rewrite parse_json3_events_segments.
  change (map idx ?l) with (idx <$> l). rewrite fmap_imap, length_imap.
  rewrite <- (list_fmap_id (seq 0 _)), <- imap_seq_0.
  apply imap_ext. reflexivity.
Qed.

(** C2: [parse_json3_events] drops an event exactly when its fragment list
    is absent or empty or its joined, newline-replaced, stripped text is
    empty; the kept events become, in their original order, segments with
    start and duration equal to the millisecond fields divided by 1000;
    the index of a segment is its position, so indices are contiguous from
    zero and dropped events use none; no segment has an empty text. *)
Theorem parse_json3_events_spec (json3_obj : option json3) :
  let evs := events_of json3_obj in
  let out := fst (parse_json3_events json3_obj) in
  (forall ev, retained ev = false <-> seg_list ev = [] \/ event_text ev = []) /\
  out = imap segment_of (List.filter retained evs) /\
  (forall i ev, List.filter retained evs !! i = Some ev ->
     exists s, out !! i = Some s /\ idx s = i /\
       start_sec s = (inject_Z (default 0%Z (tStartMs ev)) / 1000)%Q /\
       dur_sec s = (inject_Z (default 0%Z (dDurationMs ev)) / 1000)%Q /\
       text s = event_text ev) /\
  map idx out = seq 0 (length out) /\
  Forall (fun s => text s <> []) out.
Proof.
  intros evs out. subst out. rewrite parse_json3_events_segments. fold evs.
  split; [exact retained_false|]. split; [reflexivity|].
  split; [|split].
  - intros i ev Hev. exists (segment_of i ev). rewrite list_lookup_imap, Hev.
    repeat split.
  - pose proof (parse_json3_events_indices json3_obj) as H. cbv zeta in H.
    now rewrite parse_json3_events_segments in H.
  - apply Forall_forall. intros s Hs.
    apply elem_of_lookup_imap in Hs as (i & ev & -> & Hev).
    apply list_elem_of_lookup_2, list_elem_of_In, filter_In in Hev as [_ Hr].
    simpl. unfold retained in Hr. apply andb_true_iff in Hr as [_ Hr].
    intros E. rewrite E in Hr. discriminate.
Qed.

Lemma parse_json3_events_spec_witness :
  exists s,
    fst (parse_json3_events
           (Some (Json3 (Some [ev_hello; ev_blank; ev_nosegs; ev_bye])))) !! 1%nat
    = Some s /\
    idx s = 1%nat /\
    start_sec s = (inject_Z (default 0%Z (tStartMs ev_bye)) / 1000)%Q /\
    dur_sec s = (inject_Z (default 0%Z (dDurationMs ev_bye)) / 1000)%Q /\
    text s = event_text ev_bye.
Proof.
  apply (proj1 (proj2 (proj2 (parse_json3_events_spec
           (Some (Json3 (Some [ev_hello; ev_blank; ev_nosegs; ev_bye]))))))).
  vm_compute. reflexivity.
Defined.

(** *** The sibling parser of [yt_subtitles.py]

    [_events_to_snippets] keeps the same numbering discipline but also skips
    an event that has no start offset, and strips without replacing
    newlines. *)

Definition snippet_retained (e : event) : bool :=
  nonempty_list (seg_list e) &&
  match tStartMs e with Some _ => true | None => false end &&
  nonempty (strip (joined (seg_list e))).

Definition snippet_of (i : nat) (e : event) : snippet :=
  let start := ms_to_sec (default 0 (tStartMs e)) in
  let dur := ms_to_sec (default 0 (dDurationMs e)) in
  Snippet i start (start + dur)%Q dur (strip (joined (seg_list e))).

Lemma snippet_step_retained (out : list snippet) (i : nat) (e : event) :
  snippet_step (out, i) e =
    if snippet_retained e then (out ++ [snippet_of i e], S i) else (out, i).
Proof.
  unfold snippet_step, snippet_retained, snippet_of, seg_list.
  destruct (segs e) as [[|f fs]|]; cbn; try reflexivity.
  destruct (tStartMs e); cbn; reflexivity.
Qed.

Lemma fold_snippet_step (evs : list event) (out : list snippet) (i : nat) :
  let kept := List.filter snippet_retained evs in
  fold_left snippet_step evs (out, i)
  = (out ++ imap (fun n e => snippet_of (i + n) e) kept, (i + length kept)%nat).
Proof.
  revert out i. induction evs as [|e evs IH]; intros out i; cbn [fold_left List.filter].
  - cbn. now rewrite app_nil_r, Nat.add_0_r.
  - rewrite snippet_step_retained. destruct (snippet_retained e).
    + rewrite IH. cbn [imap length]. rewrite <- app_assoc, Nat.add_0_r.
      f_equal; [|lia]. cbn [app]. do 2 f_equal.
      apply imap_ext. intros n x _. cbn. f_equal. lia.
    + apply IH.
Qed.

Lemma events_to_snippets_spec (j : json3) :
  _events_to_snippets j
  = imap snippet_of (List.filter snippet_retained (default [] (events j))).
Proof.
  unfold _events_to_snippets. rewrite fold_snippet_step. cbn [fst app].
  apply imap_ext. reflexivity.
Qed.

(** An event with text but no start offset: kept, at offset zero, by
    [parse_json3_events] and skipped by [_events_to_snippets]. *)
Example untimed_event :
  fst (parse_json3_events (Some (Json3 (Some [ev_bye]))))
  = [Segment 0 (0 # 1000) (40 # 1000) (py "bye")] /\
  _events_to_snippets (Json3 (Some [ev_bye])) = [].
Proof. split; vm_compute; reflexivity. Qed.

End Json3Facts.

Module WebVttFacts.
Import WebVtt.

Definition sample_vtt : pystr :=
  py "WEBVTT" ++ [10%N; 10%N] ++
  py "00:00:01.000 --> 00:00:02.500 align:start" ++ [10%N] ++
  py "hello" ++ [10%N] ++ py "NOTE this is a comment" ++ [10%N] ++
  py "world" ++ [10%N; 10%N] ++
  py "00:00:05.000 --> 00:00:04.000" ++ [10%N] ++ py "late" ++ [10%N] ++
  py "00:01:00.250 --> 00:01:01.000" ++ [10%N] ++ py "NOTE only" ++ [10%N].

Definition ts_line : pystr := py "00:00:05.000 --> 00:00:04.000".

Example parse_webvtt_sample :
  map (fun s => (idx s, Qred (start_sec s), Qred (dur_sec s), text s))
      (fst (parse_webvtt ascii_decimal sample_vtt))
  = [(0%nat, 1#1, 3#2, py "hello world"); (1%nat, 5#1, 0#1, py "late")]%Q /\
  snd (parse_webvtt ascii_decimal sample_vtt) = py "hello world late".
Proof. split; vm_compute; reflexivity. Qed.

Example hms_to_sec_sample :
  (_hms_to_sec ascii_decimal (py "01") (py "02") (py "03.500") == 7447 # 2)%Q /\
  _VTT_TS_search ascii_decimal ts_line
  = Some (TsMatch (py "00") (py "00") (py "05.000") (py "00") (py "00") (py "04.000")) /\
  _VTT_TS_search ascii_decimal (py " 00:00:05.000 --> 00:00:04.000") = None.
Proof. repeat split; vm_compute; reflexivity. Qed.

Lemma pymax_nonneg (x : Q) : (0 <= pymax 0 x)%Q.
Proof.
  unfold pymax. destruct (x ?= 0)%Q eqn:E; try apply Qle_refl.
  apply Qgt_alt in E. now apply Qlt_le_weak.
Qed.

Lemma pymax_floor (st en : Q) : (en < st)%Q -> pymax 0 (en - st) = 0%Q.
Proof.
  intros H. unfold pymax. destruct (en - st ?= 0)%Q eqn:E; try reflexivity.
  apply Qgt_alt in E. exfalso.
  apply (Qlt_irrefl st). apply Qlt_trans with en; [|exact H].
  apply (Qplus_lt_l _ _ (- st)). rewrite Qplus_opp_r. exact E.
Qed.

Section Facts.
Variable todecimal : N -> option Z.

(** A line the inner loop takes as part of the cue. *)
Definition body_line (l : pystr) : bool :=
  nonempty l && negb (contains l arrow).

Definition not_note (l : pystr) : bool := negb (startswith l (py "NOTE")).

(** What holds of the accumulator throughout the loop. *)
Definition acc_ok (a : acc) : Prop :=
  map idx (acc_segs a) = seq 0 (length (acc_segs a)) /\
  acc_idx a = length (acc_segs a) /\
  acc_full a = map text (acc_segs a) /\
  Forall (fun s => text s <> [] /\ (0 <= dur_sec s)%Q) (acc_segs a).

Lemma emit_ok (a : acc) (st en : Q) (tx : pystr) :
  acc_ok a -> acc_ok (emit a st en tx).
Proof.
  intros (Hi & Hn & Hf & Ht). unfold emit.
  destruct tx as [|c tx]; simpl; [now repeat split|].
  repeat split; simpl.
  - rewrite map_app, length_app, seq_app, Hi, Hn. reflexivity.
  - rewrite length_app, Hn. simpl. lia.
  - rewrite map_app, Hf. reflexivity.
  - apply Forall_app. split; [exact Ht|].
    constructor; [|constructor]. simpl. split; [discriminate|apply pymax_nonneg].
Qed.

Lemma vtt_loop_ok (lines : list pystr) (a : acc) :
  acc_ok a -> acc_ok (vtt_loop todecimal lines a).
Proof.
  funelim (vtt_loop todecimal lines a); intros Hok; auto using emit_ok.
Qed.

Lemma cue_lines_body (body rest tl : list pystr) :
  Forall (fun l => body_line l = true) body ->
  match rest with [] => True | l :: _ => body_line l = false end ->
  cue_lines (body ++ rest) tl = (tl ++ List.filter not_note body, rest).
Proof.
  intros Hb Hr. revert tl. induction Hb as [|l body Hl Hb IH]; intros tl.
  - simpl. rewrite app_nil_r. destruct rest as [|l rest]; [reflexivity|].
    cbn [cue_lines]. fold (body_line l). now rewrite Hr.
  - cbn [app cue_lines List.filter]. fold (body_line l) (not_note l).
    rewrite Hl, IH. destruct (not_note l); [|reflexivity].
    now rewrite <- app_assoc.
Qed.

Lemma parse_webvtt_ok (vtt_text : pystr) :
  let out := parse_webvtt todecimal vtt_text in
  Forall (fun s => text s <> [] /\ (0 <= dur_sec s)%Q) (fst out) /\
  map idx (fst out) = seq 0 (length (fst out)) /\
  snd out = join space (map text (fst out)).
Proof.
  destruct (vtt_loop_ok (map clean_line (splitlines vtt_text)) (Acc [] [] 0))
    as (Hi & Hn & Hf & Ht); [now repeat split|].
  unfold parse_webvtt. cbn [fst snd]. now rewrite Hf.
Qed.

(** *** The cue parser in the words of the specification *)

(** Total seconds of a timestamp: [h*3600 + m*60 + s], with integer hours
    and minutes and decimal seconds. *)
Definition spec_seconds (h m s : pystr) : Q :=
  (inject_Z (py_int todecimal h) * 3600 + inject_Z (py_int todecimal m) * 60
   + py_float todecimal s)%Q.

(** Duration: [end - start], floored at zero if negative. *)
Definition spec_duration (start end_ : Q) : Q :=
  if Qle_bool 0 (end_ - start) then (end_ - start)%Q else 0%Q.

(** The body of a cue: the lines that follow its timestamp line, up to the
    first blank line or line with an arrow. *)
Fixpoint spec_body (lines : list pystr) : list pystr :=
  match lines with
  | l :: rest => if body_line l then l :: spec_body rest else []
  | [] => []
  end.

Record spec_cue := SpecCue {
  c_start : Q;
  c_end : Q;
  c_text : pystr
}.

(** The joined text of a body: its lines that do not begin with NOTE,
    joined by spaces, with newlines replaced by spaces and the ends
    stripped. *)
Definition spec_text (body : list pystr) : pystr :=
  strip (replace_char newline space (join space (List.filter not_note body))).

(** The cue the line at position [p] opens: the line is a timestamp line,
    the text is the joined text of its body, and there is a cue only if
    that text is not empty. *)
Definition spec_cue_at (lines : list pystr) (p : nat) : option spec_cue :=
  ln ← lines !! p;
  m ← cue_start todecimal ln;
  let tx := spec_text (spec_body (drop (S p) lines)) in
  if nonempty tx then
    Some (SpecCue (spec_seconds (g_h m) (g_m m) (g_s m))
                  (spec_seconds (g_h2 m) (g_m2 m) (g_s2 m)) tx)
  else None.

(** The cues of a text, in the order of their timestamp lines. *)
Definition spec_cues (lines : list pystr) : list spec_cue :=
  omap (spec_cue_at lines) (seq 0 (length lines)).

(** A segment of the parser carries the cue [c]: its start, its duration
    [end - start] floored at zero (so 0 when [end < start]) and its text. *)
Definition same_cue (s : segment) (c : spec_cue) : Prop :=
  (start_sec s == c_start c)%Q /\
  (dur_sec s == spec_duration (c_start c) (c_end c))%Q /\
  ((c_end c < c_start c)%Q -> (dur_sec s == 0)%Q) /\
  text s = c_text c.

Lemma hms_to_sec_spec (h m s : pystr) :
  (_hms_to_sec todecimal h m s == spec_seconds h m s)%Q.
Proof.
  unfold _hms_to_sec, spec_seconds.
  rewrite !inject_Z_plus, !inject_Z_mult. reflexivity.
Qed.

Lemma pymax_spec_duration (st en st' en' : Q) :
  (st == st')%Q -> (en == en')%Q ->
  (pymax 0 (en - st) == spec_duration st' en')%Q.
Proof.
  intros Hs He. unfold spec_duration, pymax.
  destruct (Qle_bool 0 (en' - st')) eqn:E.
  - apply Qle_bool_iff in E.
    destruct (en - st ?= 0)%Q eqn:C.
    + apply Qeq_alt in C. lra.
    + apply Qlt_alt in C. lra.
    + lra.
  - assert (H : ~ (0 <= en' - st')%Q)
      by (intros H; apply Qle_bool_iff in H; congruence).
    destruct (en - st ?= 0)%Q eqn:C; try reflexivity.
    apply Qgt_alt in C. lra.
Qed.

Lemma spec_duration_floor (st en : Q) :
  (en < st)%Q -> spec_duration st en = 0%Q.
Proof.
  intros H. unfold spec_duration.
  destruct (Qle_bool 0 (en - st)) eqn:E; [|reflexivity].
  apply Qle_bool_iff in E. lra.
Qed.

Lemma omap_map {A B C} (f : B -> option C) (g : A -> B) (l : list A) :
  omap f (map g l) = omap (fun x => f (g x)) l.
Proof.
  induction l as [|a l IH]; [reflexivity|]. cbn [map omap list_omap].
  now rewrite IH.
Qed.

Lemma spec_cues_cons (ln : pystr) (rest : list pystr) :
  spec_cues (ln :: rest)
  = match spec_cue_at (ln :: rest) 0 with
    | Some c => c :: spec_cues rest
    | None => spec_cues rest
    end.
Proof.
  unfold spec_cues. cbn [length seq omap list_omap].
  rewrite <- seq_shift, omap_map.
  destruct (spec_cue_at (ln :: rest) 0); reflexivity.
Qed.

Lemma body_line_no_cue (l : pystr) :
  body_line l = true -> cue_start todecimal l = None.
Proof.
  unfold body_line, cue_start. intros H. apply andb_true_iff in H as [_ H].
  apply negb_true_iff in H. now rewrite H.
Qed.

Lemma cue_lines_spec (rest tl : list pystr) :
  cue_lines rest tl
  = (tl ++ List.filter not_note (spec_body rest),
     drop (length (spec_body rest)) rest).
Proof.
  revert tl. induction rest as [|l rest IH]; intros tl.
  - cbn. now rewrite app_nil_r.
  - cbn [cue_lines spec_body]. fold (body_line l) (not_note l).
    destruct (body_line l).
    + rewrite IH. cbn [List.filter length drop].
      destruct (not_note l); [|reflexivity]. now rewrite <- app_assoc.
    + cbn. now rewrite app_nil_r.
Qed.

Lemma spec_cues_skip_body (rest : list pystr) :
  spec_cues (drop (length (spec_body rest)) rest) = spec_cues rest.
Proof.
  induction rest as [|l rest IH]; [reflexivity|]. cbn [spec_body].
  destruct (body_line l) eqn:Hl; [|reflexivity].
  cbn [length drop]. rewrite IH, spec_cues_cons.
  unfold spec_cue_at. cbn [lookup list_lookup mbind option_bind].
  now rewrite (body_line_no_cue l Hl).
Qed.

Lemma vtt_loop_spec (lines : list pystr) (a : acc) :
  forall pre,
    Forall2 same_cue (acc_segs a) pre ->
    Forall2 same_cue (acc_segs (vtt_loop todecimal lines a))
            (pre ++ spec_cues lines).
Proof.
  funelim (vtt_loop todecimal lines a); intros pre Hpre.
  - now rewrite app_nil_r.
  - rewrite spec_cues_cons. unfold spec_cue_at.
    cbn [lookup list_lookup mbind option_bind drop]. rewrite Heq.
    cbn [mbind option_bind]. rewrite ?drop_0.
    rewrite (cue_lines_spec rest []) in *. cbn [fst snd app] in *.
    change (cue_text (List.filter not_note (spec_body rest)))
      with (spec_text (spec_body rest)) in *.
    set (tx := spec_text (spec_body rest)) in *.
    unfold emit in *. destruct (nonempty tx) eqn:Hne.
    + rewrite <- (spec_cues_skip_body rest).
      set (c := SpecCue (spec_seconds (g_h m) (g_m m) (g_s m))
                        (spec_seconds (g_h2 m) (g_m2 m) (g_s2 m)) tx).
      specialize (H (pre ++ [c])). rewrite <- app_assoc in H. apply H.
      cbn [acc_segs]. apply Forall2_app; [exact Hpre|].
      constructor; [|constructor]. unfold same_cue. cbn.
      pose proof (hms_to_sec_spec (g_h m) (g_m m) (g_s m)) as Hs.
      pose proof (hms_to_sec_spec (g_h2 m) (g_m2 m) (g_s2 m)) as He.
      pose proof (pymax_spec_duration _ _ _ _ Hs He) as Hd.
      split; [exact Hs|]. split; [exact Hd|]. split; [|reflexivity].
      intros Hlt. rewrite Hd, (spec_duration_floor _ _ Hlt). reflexivity.
    + rewrite <- (spec_cues_skip_body rest). now apply H.
  - rewrite spec_cues_cons. unfold spec_cue_at.
    cbn [lookup list_lookup mbind option_bind]. rewrite Heq.
    now apply H.
Qed.

(** C3: the cues [parse_webvtt] emits are, in order, the cues of the
    cleaned lines of its input: one for every timestamp line whose joined
    body text is not empty, the text joining the body lines that do not
    begin with NOTE, the start being [h*3600 + m*60 + s] of the first
    timestamp, and the duration [end - start] floored at zero, hence 0 and
    never negative when [end < start].  The indices of the emitted cues are
    their positions (contiguous from zero), no emitted text is empty, and
    the full text is the space-join of the emitted texts. *)
Theorem parse_webvtt_spec (vtt_text : pystr) :
  let lines := map clean_line (splitlines vtt_text) in
  let out := parse_webvtt todecimal vtt_text in
  Forall2 same_cue (fst out) (spec_cues lines) /\
  map idx (fst out) = seq 0 (length (fst out)) /\
  Forall (fun s => text s <> [] /\ (0 <= dur_sec s)%Q) (fst out) /\
  snd out = join space (map text (fst out)).
Proof.
  intros lines out. destruct (parse_webvtt_ok vtt_text) as (Ht & Hi & Hf).
  subst out. split; [|split; [exact Hi|split; [exact Ht|exact Hf]]].
  unfold parse_webvtt. cbn [fst].
  apply (vtt_loop_spec lines (Acc [] [] 0) []). constructor.
Qed.

(** A timestamp line that is no cue start, and any other line, is
    skipped. *)
Lemma vtt_loop_skip (ln : pystr) (rest : list pystr) (a : acc) :
  cue_start todecimal ln = None ->
  vtt_loop todecimal (ln :: rest) a = vtt_loop todecimal rest a.
Proof. intros H. simp vtt_loop. now rewrite H. Qed.

End Facts.

(** The cues of the sample: the comment line is left out of the first
    text, the second cue ends before it starts, and the third timestamp line
    has only a comment for a body, so it opens no cue. *)
Example spec_cues_sample :
  map (fun c => (Qred (c_start c), Qred (c_end c),
                 Qred (spec_duration (c_start c) (c_end c)), c_text c))
      (spec_cues ascii_decimal (map clean_line (splitlines sample_vtt)))
  = [(1#1, 5#2, 3#2, py "hello world"); (5#1, 4#1, 0#1, py "late")]%Q.
Proof. vm_compute. reflexivity. Qed.

Lemma parse_webvtt_spec_witness :
  Forall2 same_cue (fst (parse_webvtt ascii_decimal sample_vtt))
          (spec_cues ascii_decimal (map clean_line (splitlines sample_vtt))) /\
  map idx (fst (parse_webvtt ascii_decimal sample_vtt)) = [0; 1]%nat.
Proof.
  destruct (parse_webvtt_spec ascii_decimal sample_vtt) as (H1 & H2 & _).
  split; [exact H1|exact H2].
Defined.

End WebVttFacts.

Module FetchFacts.
Import Json3 LangPolicy Fetch.

(** A backend whose first extraction raises and whose second one offers
    only automatic English captions in WebVTT. *)
Definition auto_vtt_backend : backend :=
  Backend
    (fun _ => Raise (py "DownloadError"))
    (fun _ => Ok (Some (Info None None
       (Some [(py "en", [Entry (Some (py "vtt")) (Some (py "https://captions/vtt"))])]))))
    (fun n _ => if (n =? 3)%nat then Response 503 [] else Response 200 WebVttFacts.sample_vtt)
    (fun _ => Raise (py "JSONDecodeError")).

Definition sample_rows : list seg_row * option full_row :=
  rows (py "vid1") (py "en")
    (fst (WebVtt.parse_webvtt WebVtt.ascii_decimal WebVttFacts.sample_vtt))
    (py "hello world late").

Example fetch_auto_vtt :
  fetch_subs_for_video auto_vtt_backend WebVtt.ascii_decimal (py "vid1") (py "en") (py "ko")
  = Ok sample_rows.
Proof. vm_compute. reflexivity. Qed.

Lemma slice_to_length (n : N) (s : pystr) :
  (N.of_nat (length (slice_to n s)) <= n)%N.
Proof.
  revert n. induction s as [|c r IH]; intros n; simpl; [lia|].
  destruct (N.eqb_spec n 0); simpl; [lia|].
  specialize (IH (N.pred n)). lia.
Qed.

Lemma slice_to_short (n : N) (s : pystr) :
  (N.of_nat (length s) <= n)%N -> slice_to n s = s.
Proof.
  revert n. induction s as [|c r IH]; intros n H; simpl in *; [reflexivity|].
  destruct (N.eqb_spec n 0); [lia|]. rewrite IH; [reflexivity|lia].
Qed.

Lemma slice_to_take (n : N) (s : pystr) : slice_to n s = take (N.to_nat n) s.
Proof.
  revert n. induction s as [|c r IH]; intros n; simpl.
  - now rewrite take_nil.
  - destruct (N.eqb_spec n 0) as [->|Hn]; [reflexivity|].
    rewrite IH. replace (N.to_nat n) with (S (N.to_nat (N.pred n))) by lia.
    reflexivity.
Qed.

(** What every returned pair satisfies. *)
Definition well_formed (vid : pystr) (r : list seg_row * option full_row) : Prop :=
  (snd r = None <-> fst r = []) /\
  (forall f, snd r = Some f ->
     f_video_id f = vid /\
     Forall (fun row => s_video_id row = vid /\ s_lang row = f_lang f) (fst r) /\
     full_text f = slice_to 1000000 (join space (map (fun row => text (s_seg row)) (fst r)))) /\
  (forall i row, fst r !! i = Some row -> idx (s_seg row) = i).

Lemma well_formed_empty (vid : pystr) : well_formed vid ([], None).
Proof. repeat split; intros; simpl in *; try discriminate. Qed.

Lemma well_formed_rows (vid k : pystr) (evs : list segment) (ft : pystr) :
  nonempty_list evs = true ->
  map idx evs = seq 0 (length evs) ->
  ft = join space (map text evs) ->
  well_formed vid (rows vid k evs ft).
Proof.
  intros Hne Hi ->. unfold rows. split; [|split]; simpl.
  - split; [discriminate|]. destruct evs; [discriminate|discriminate].
  - intros f [= <-]. simpl. split; [reflexivity|]. split.
    + apply Forall_forall. intros row Hrow.
      apply list_elem_of_In, in_map_iff in Hrow as (e & <- & _). now simpl.
    + now rewrite map_map.
  - intros i row Hrow.
    change (map ?f ?l) with (f <$> l) in Hrow.
    rewrite list_lookup_fmap in Hrow.
    destruct (evs !! i) as [e|] eqn:He; [|discriminate].
    injection Hrow as <-. simpl.
    assert (H : (idx <$> evs) !! i = Some (idx e)) by now rewrite list_lookup_fmap, He.
    change (idx <$> evs) with (map idx evs) in H. rewrite Hi in H.
    apply lookup_seq in H. lia.
Qed.

Lemma parse_payload_rows (vid k : pystr) (d : payload) (evs : list segment) (ft : pystr) :
  parse_payload d = Ok (evs, ft) ->
  nonempty_list evs = true ->
  well_formed vid (rows vid k evs ft).
Proof.
  destruct d as [j|e]; cbn [parse_payload]; [|discriminate]. intros H Hne.
  pose proof (Json3Facts.parse_json3_events_indices (Some j)) as Hi.
  pose proof (Json3Facts.parse_json3_events_full (Some j)) as Hf.
  cbv zeta in Hi. revert H Hi Hf.
  generalize (parse_json3_events (Some j)). intros p [= ->]. simpl.
  intros Hi Hf. now apply well_formed_rows.
Qed.

Section WithBackend.
Variable B : backend.
Variable todecimal : N -> option Z.

Lemma attempt_inline_well_formed (vid pref fb : pystr) r :
  attempt_inline B vid pref fb = Ok (Some r) -> well_formed vid r.
Proof.
  unfold attempt_inline.
  destruct (extract_inline B vid) as [i|e]; cbn [mbind result_bind];
    [|discriminate].
  cbv zeta. destruct (nonempty_list _); [|discriminate].
  destruct (choose_key _ pref fb) as [[|c k]|]; try discriminate.
  destruct (getitem _ (c :: k)) as [rq|e]; cbn [mbind result_bind];
    [|discriminate].
  destruct (data rq) as [d|]; [|discriminate].
  destruct (parse_payload d) as [[evs ft]|e] eqn:Hp; cbn [mbind result_bind];
    [|discriminate].
  destruct (nonempty_list evs) eqn:Hne; [|discriminate].
  intros [= <-]. eapply parse_payload_rows; eauto.
Qed.

Lemma json3_from_text_well_formed (vid k txt : pystr) r :
  json3_from_text B vid k txt = Ok (Some r) -> well_formed vid r.
Proof.
  unfold json3_from_text, try_except.
  destruct (json_loads B txt) as [d|e]; cbn [mbind result_bind]; [|discriminate].
  destruct (parse_payload d) as [[evs ft]|e] eqn:Hp; cbn [mbind result_bind];
    [|discriminate].
  destruct (nonempty_list evs) eqn:Hne; [|discriminate].
  intros [= <-]. eapply parse_payload_rows; eauto.
Qed.

Lemma webvtt_rows_well_formed (vid k txt : pystr) evs ft :
  WebVtt.parse_webvtt todecimal txt = (evs, ft) ->
  nonempty_list evs = true ->
  well_formed vid (rows vid k evs ft).
Proof.
  intros Hp Hne.
  destruct (WebVttFacts.parse_webvtt_ok todecimal txt) as (_ & Hi & Hf).
  rewrite Hp in Hi, Hf. now apply well_formed_rows.
Qed.

(** The WebVTT branch of the fallback, whatever the entries are. *)
Lemma vtt_branch (vid k : pystr) (url_vtt : option pystr) r :
  (if truthy url_vtt then
     txt ← download_text B 3 (default [] url_vtt);
     if truthy txt then
       let '(evs, full_text) := WebVtt.parse_webvtt todecimal (default [] txt) in
       if nonempty_list evs then Ok (rows vid k evs full_text)
       else Ok ([], None)
     else Ok ([], None)
   else Ok ([], None)) = Ok r ->
  well_formed vid r.
Proof.
  destruct (truthy url_vtt); [|intros [= <-]; apply well_formed_empty].
  destruct (download_text B 3 _) as [txt|e]; cbn [mbind result_bind];
    [|discriminate].
  destruct (truthy txt); [|intros [= <-]; apply well_formed_empty].
  destruct (WebVtt.parse_webvtt _ _) as [evs ft] eqn:Hp.
  destruct (nonempty_list evs) eqn:Hne;
    [|intros [= <-]; apply well_formed_empty].
  intros [= <-]. eapply webvtt_rows_well_formed; eauto.
Qed.

Lemma attempt_urls_well_formed (vid pref fb : pystr) r :
  attempt_urls B todecimal vid pref fb = Ok r -> well_formed vid r.
Proof.
  unfold attempt_urls.
  destruct (extract_generic B vid) as [i|e]; cbn [mbind result_bind];
    [|discriminate].
  cbv zeta. destruct (negb _).
  { intros [= <-]. apply well_formed_empty. }
  destruct (choose_key _ pref fb) as [[|c k]|];
    try (intros [= <-]; apply well_formed_empty).
  set (entries := default [] _).
  destruct (truthy (first_url [py "json3"] entries)).
  - destruct (download_text B 0 _) as [txt|e]; cbn [mbind result_bind];
      [|discriminate].
    destruct (truthy txt).
    + destruct (json3_from_text B vid (c :: k) (default [] txt)) as [[r'|]|e] eqn:Hj;
        cbn [mbind result_bind]; try discriminate.
      * intros [= <-]. eapply json3_from_text_well_formed; eauto.
      * apply vtt_branch.
    + cbn [mbind result_bind]. apply vtt_branch.
  - cbn [mbind result_bind]. apply vtt_branch.
Qed.

Lemma fetch_unfold (vid pref fb : pystr) :
  fetch_subs_for_video B todecimal vid pref fb =
    match attempt_inline B vid pref fb with
    | Ok (Some r) => Ok r
    | _ => match attempt_urls B todecimal vid pref fb with
           | Ok r => Ok r
           | Raise _ => Ok ([], None)
           end
    end.
Proof.
  unfold fetch_subs_for_video, try_except.
  destruct (attempt_inline B vid pref fb) as [[r|]|e];
    cbn [mbind result_bind]; reflexivity.
Qed.

Lemma fetch_returns (vid pref fb : pystr) :
  exists r, fetch_subs_for_video B todecimal vid pref fb = Ok r /\
            well_formed vid r.
Proof.
  rewrite fetch_unfold.
  destruct (attempt_inline B vid pref fb) as [[r|]|e] eqn:Ha.
  - exists r. split; [reflexivity|]. eapply attempt_inline_well_formed; eauto.
  - destruct (attempt_urls B todecimal vid pref fb) as [r|e] eqn:Hu.
    + exists r. split; [reflexivity|]. eapply attempt_urls_well_formed; eauto.
    + exists ([], None). split; [reflexivity|]. apply well_formed_empty.
  - destruct (attempt_urls B todecimal vid pref fb) as [r|e'] eqn:Hu.
    + exists r. split; [reflexivity|]. eapply attempt_urls_well_formed; eauto.
    + exists ([], None). split; [reflexivity|]. apply well_formed_empty.
Qed.

(** C5: when acquisition succeeds, [full_text] is the space-join of the
    returned segments' texts, in order, cut to its first 1,000,000
    characters; so it has at most that many characters and is the whole
    join when the join is that short. *)
Theorem full_text_round_trip (vid pref fb : pystr) segs f :
  fetch_subs_for_video B todecimal vid pref fb = Ok (segs, Some f) ->
  let joined := join space (map (fun row => text (s_seg row)) segs) in
  full_text f = take (N.to_nat 1000000) joined /\
  (N.of_nat (length (full_text f)) <= 1000000)%N /\
  ((N.of_nat (length joined) <= 1000000)%N -> full_text f = joined).
Proof.
  intros H. destruct (fetch_returns vid pref fb) as (r & Hr & _ & Hw & _).
  rewrite H in Hr. injection Hr as <-.
  destruct (Hw f eq_refl) as (_ & _ & Hf). cbn [fst] in Hf.
  intros joined. fold joined in Hf. rewrite Hf. split; [|split].
  - apply slice_to_take.
  - apply slice_to_length.
  - apply slice_to_short.
Qed.

(** C10: [fetch_subs_for_video] returns a pair [(segments, full)] in
    which [full] is [None] exactly when [segments] is empty; otherwise
    the full row and every segment row carry the video id and one same
    language key, and the [idx] of each segment is its position. *)
Theorem fetch_subs_for_video_invariant (vid pref fb : pystr) :
  exists segs full,
    fetch_subs_for_video B todecimal vid pref fb = Ok (segs, full) /\
    (full = None <-> segs = []) /\
    (forall f, full = Some f ->
       f_video_id f = vid /\
       Forall (fun row => s_video_id row = vid /\ s_lang row = f_lang f) segs) /\
    (forall i row, segs !! i = Some row -> idx (s_seg row) = i).
Proof.
  destruct (fetch_returns vid pref fb) as ([segs full] & Hr & Hn & Hw & Hi).
  exists segs, full. split; [exact Hr|]. split; [exact Hn|]. split; [|exact Hi].
  intros f Hf. destruct (Hw f Hf) as (? & ? & _). now split.
Qed.

End WithBackend.

Lemma full_text_round_trip_witness :
  full_text (FullRow (py "vid1") (py "en") (py "hello world late"))
  = take (N.to_nat 1000000)
      (join space (map (fun row => text (s_seg row)) (fst sample_rows))).
Proof.
  exact (proj1 (full_text_round_trip auto_vtt_backend WebVtt.ascii_decimal
                  (py "vid1") (py "en") (py "ko") (fst sample_rows)
                  (FullRow (py "vid1") (py "en") (py "hello world late"))
                  fetch_auto_vtt)).
Defined.

Lemma fetch_subs_for_video_invariant_witness :
  exists segs full,
    fetch_subs_for_video auto_vtt_backend WebVtt.ascii_decimal
      (py "vid1") (py "en") (py "ko") = Ok (segs, full) /\
    (full = None <-> segs = []) /\
    (forall f, full = Some f ->
       f_video_id f = py "vid1" /\
       Forall (fun row => s_video_id row = py "vid1" /\ s_lang row = f_lang f) segs) /\
    (forall i row, segs !! i = Some row -> idx (s_seg row) = i).
Proof.
  exact (fetch_subs_for_video_invariant auto_vtt_backend WebVtt.ascii_decimal
           (py "vid1") (py "en") (py "ko")).
Defined.

Lemma get_subtitles_returns (YB : YtSubtitles.backend) (vid : pystr)
    (langs : option (list pystr)) :
  YtSubtitles._extract_info YB vid <> Ok None ->
  exists row, YtSubtitles.get_subtitles YB vid langs = Ok row.
Proof.
  intros Hn. unfold YtSubtitles.get_subtitles.
  destruct (YtSubtitles._extract_info YB vid) as [[i|]|e]; [|congruence|eauto].
  cbn [YtSubtitles.pick_track mbind result_bind].
  destruct (YtSubtitles._pick_json3_track i _) as [[u lang] src].
  destruct (negb (nonempty u)); [eauto|].
  unfold try_except. destruct (YtSubtitles._download YB u); cbn; eauto.
Qed.

Lemma get_subtitles_none (YB : YtSubtitles.backend) (vid : pystr)
    (langs : option (list pystr)) :
  YtSubtitles._extract_info YB vid = Ok None ->
  YtSubtitles.get_subtitles YB vid langs = Raise (py "AttributeError").
Proof. intros H. unfold YtSubtitles.get_subtitles. now rewrite H. Qed.

(** A backend whose extraction returns [None], and one that answers as
    [_extract_info] does for a video without captions. *)
Definition none_backend : YtSubtitles.backend :=
  YtSubtitles.Backend (fun _ => Ok None)
                      (fun _ => Raise (py "ConnectionError"))
                      (py "2024-01-01T00:00:00+07:00").

(** C6: whatever the backend does, [fetch_subs_for_video] returns a value
    and raises nothing.  An exception in the first (inline JSON3) attempt,
    in particular one raised by the extraction itself, is caught there and
    the URL-discovery attempt still runs: the result is what that attempt
    returns, or the empty pair when it raises too.  [get_subtitles] returns
    a row when its extraction raises or returns an info dictionary, but
    when the extraction returns [None] it raises [AttributeError] to its
    caller, where [fetch_subs_for_video] reads [(info or {})]. *)
Theorem acquisition_never_raises :
  (forall B todecimal vid pref fb,
     exists r, fetch_subs_for_video B todecimal vid pref fb = Ok r) /\
  (forall B vid pref fb e,
     extract_inline B vid = Raise e -> attempt_inline B vid pref fb = Raise e) /\
  (forall B todecimal vid pref fb e,
     attempt_inline B vid pref fb = Raise e ->
     fetch_subs_for_video B todecimal vid pref fb =
       match attempt_urls B todecimal vid pref fb with
       | Ok r => Ok r
       | Raise _ => Ok ([], None)
       end) /\
  (forall YB vid langs,
     YtSubtitles._extract_info YB vid <> Ok None ->
     exists row, YtSubtitles.get_subtitles YB vid langs = Ok row) /\
  (forall YB vid langs,
     YtSubtitles._extract_info YB vid = Ok None ->
     YtSubtitles.get_subtitles YB vid langs = Raise (py "AttributeError")).
Proof.
  split; [|split; [|split; [|split]]].
  - intros B td vid pref fb.
    destruct (fetch_returns B td vid pref fb) as (r & Hr & _). eauto.
  - intros B vid pref fb e He. unfold attempt_inline. now rewrite He.
  - intros B td vid pref fb e He. now rewrite fetch_unfold, He.
  - apply get_subtitles_returns.
  - apply get_subtitles_none.
Qed.

Lemma acquisition_never_raises_witness :
  fetch_subs_for_video auto_vtt_backend WebVtt.ascii_decimal (py "vid1") (py "en") (py "ko")
  = match attempt_urls auto_vtt_backend WebVtt.ascii_decimal (py "vid1") (py "en") (py "ko") with
    | Ok r => Ok r
    | Raise _ => Ok ([], None)
    end /\
  YtSubtitles.get_subtitles none_backend (py "juLp1JUOGck") None
  = Raise (py "AttributeError").
Proof.
  destruct acquisition_never_raises as (_ & Hx & Hc & _ & Hn).
  split.
  - apply (Hc auto_vtt_backend WebVtt.ascii_decimal (py "vid1") (py "en") (py "ko")
              (py "DownloadError")).
    apply Hx. reflexivity.
  - apply Hn. reflexivity.
Defined.

End FetchFacts.

Module QueryServiceFacts.
Import QueryService.

Definition quiet_request : payload :=
  Payload (Some (py " quiet hotel near Hongdae ")) None None None None (Some 0).

Definition empty_warehouse : warehouse :=
  Warehouse (fun _ => Ok []) (fun _ => Ok [Some (py "unused")]).

Example ask_no_rows :
  ask empty_warehouse quiet_request
  = ([Retrieval (RetrievalParams (py "quiet hotel near Hongdae") (py "en") false 0 0 5)],
     JSONResponse (py "No review candidates matched your question or filters.") []).
Proof. vm_compute. reflexivity. Qed.

Example ask_without_question :
  ask empty_warehouse (Payload (Some (py "  ")) None None None None None)
  = ([], HTTPException 500 (py "HTTPException: 400: Missing 'question'.")).
Proof. vm_compute. reflexivity. Qed.

(** C9: when the retrieval query returns no row, [ask] answers with the
    fixed summary and an empty citation list and issues no generation query;
    when it returns at least one row, exactly one generation query follows
    the retrieval query; a request never issues more than two queries. *)
Theorem ask_query_budget (W : warehouse) (p : payload) :
  let ps := params_of p in
  (length (fst (ask W p)) <= 2)%nat /\
  (p_q_text ps <> [] -> retrieve W ps = Ok [] ->
     ask W p = ([Retrieval ps], JSONResponse no_results [])) /\
  (p_q_text ps <> [] -> forall r rs, retrieve W ps = Ok (r :: rs) ->
     fst (ask W p)
     = [Retrieval ps;
        Generation (make_prompt (p_q_text ps)
                      (join [newline] (map bullet_of (r :: rs))))] /\
     length (List.filter is_generation (fst (ask W p))) = 1%nat) /\
  (forall e, retrieve W ps = Raise e ->
     List.filter is_generation (fst (ask W p)) = []) /\
  (p_q_text ps = [] -> fst (ask W p) = []).
Proof.
  intros ps. unfold ask, ask_body. fold ps.
  destruct (p_q_text ps) as [|c q] eqn:Hq; cbn [nonempty negb].
  { cbn. repeat split; try (intros; congruence); auto with lia. }
  unfold mbind, req_bind, query_candidates. cbn [app].
  destruct (retrieve W ps) as [[|r rs]|e] eqn:Hr; cbn.
  - repeat split; try (intros; congruence); auto with lia.
  - unfold query_summary.
    destruct (generate W _) as [[|[tx|] srows]|e] eqn:Hg; cbn.
    all: split; [lia|]; split; [congruence|]; split;
      [|split; [congruence|discriminate]].
    all: intros _ r' rs' [= <- <-]; split; reflexivity.
  - repeat split; try (intros; congruence); auto with lia.
Qed.

Lemma ask_query_budget_witness :
  ask empty_warehouse quiet_request
  = ([Retrieval (params_of quiet_request)], JSONResponse no_results []).
Proof.
  apply (proj1 (proj2 (ask_query_budget empty_warehouse quiet_request))).
  - vm_compute. discriminate.
  - reflexivity.
Defined.

End QueryServiceFacts.

Module UpsertFacts.
Import Upsert.

Definition row_of (vid lang tx stamp : string) : row :=
  Row (py vid) (Some (py lang)) (Some (py tx)) (Some (py "manual")) (Some 1)
      [Snippet (Some 0) None None None (Some (py tx))] [] (Some (py stamp)).

Example default_keys :
  keys_of default_dedupe_on = [py "video_id"; py "subtitle_lang"] /\
  on_clause_of (keys_of default_dedupe_on) = OnKeys [py "video_id"; py "subtitle_lang"] /\
  clause_keys (on_clause_of (keys_of default_dedupe_on))
  = Some (Some [c_video_id; c_subtitle_lang]) /\
  _build_merge_condition_from_keys (keys_of default_dedupe_on)
  = py "T.video_id IS NOT DISTINCT FROM S.video_id AND T.subtitle_lang IS NOT DISTINCT FROM S.subtitle_lang".
Proof. repeat split; vm_compute; reflexivity. Qed.

Example empty_keys :
  _build_merge_condition_from_keys (keys_of (py " , ")) = py "FALSE" /\
  on_clause_of (keys_of (py " , ")) = OnFalse.
Proof. split; vm_compute; reflexivity. Qed.

Example upsert_updates_and_inserts :
  upsert_subtitles_raw
    [row_of "v1" "en" "new" "t2"; row_of "v2" "en" "other" "t2"]
    default_dedupe_on
    (Warehouse (Some [row_of "v1" "en" "old" "t1"; row_of "v1" "ko" "kept" "t1"]) None)
  = (Warehouse
       (Some [fix_row (row_of "v1" "en" "new" "t2"); row_of "v1" "ko" "kept" "t1";
              fix_row (row_of "v2" "en" "other" "t2")]) None, Ok tt).
Proof. vm_compute. reflexivity. Qed.

(** The text of the ON clause is the rendering of the structured clause. *)
Lemma conds_of_filter (keys : list pystr) :
  conds_of keys
  = map (fun k => py "T." ++ k ++ py " IS NOT DISTINCT FROM S." ++ k)
        (List.filter nonempty (map strip keys)).
Proof.
  induction keys as [|k keys IH]; [reflexivity|].
  cbn [conds_of map List.filter]. destruct (nonempty (strip k)); cbn [negb map].
  - now rewrite IH.
  - exact IH.
Qed.

Lemma render_on_clause (keys : list pystr) :
  _build_merge_condition_from_keys keys = render (on_clause_of keys).
Proof.
  unfold _build_merge_condition_from_keys, on_clause_of. rewrite conds_of_filter.
  destruct (List.filter nonempty (map strip keys)); reflexivity.
Qed.

(** A clause with names resolves to a non-empty list of key columns. *)
Lemma on_clause_keys_nonempty (keys : list pystr) (ks : list column) :
  clause_keys (on_clause_of keys) = Some (Some ks) -> ks <> [].
Proof.
  unfold on_clause_of. destruct (List.filter nonempty (map strip keys)) as [|k names];
    [discriminate|].
  cbn [clause_keys resolve]. destruct (column_of_name k); [|discriminate].
  cbn. destruct (resolve names); cbn; [|discriminate]. now intros [= <-].
Qed.

(** Every column of a row as one value, to speak of all columns alike. *)
Inductive cell :=
| CScalar (v : option scalar)
| CSnippets (l : list snippet)
| CStrs (l : list pystr).

Definition cell_of (c : column) (r : row) : cell :=
  match c with
  | c_snippets => CSnippets (snippets r)
  | c_errors => CStrs (errors r)
  | _ => CScalar (scalar_of c r)
  end.

Lemma row_ext (r r' : row) :
  (forall c, cell_of c r = cell_of c r') -> r = r'.
Proof.
  intros H. destruct r, r'.
  pose proof (H c_video_id) as H1. pose proof (H c_subtitle_lang) as H2.
  pose proof (H c_subtitle_text) as H3. pose proof (H c_source) as H4.
  pose proof (H c_snippet_count) as H5. pose proof (H c_snippets) as H6.
  pose proof (H c_errors) as H7. pose proof (H c_ingested_at) as H8.
  cbn in *.
  repeat match goal with
         | o : option _ |- _ => destruct o
         end; cbn in *; congruence.
Qed.

Lemma update_row_cells (t s : row) (c : column) :
  cell_of c (update_row t s) = if bool_decide (c = c_video_id) then cell_of c t else cell_of c s.
Proof. destruct c; reflexivity. Qed.

Lemma insert_row_id (s : row) : insert_row s = s.
Proof. now destruct s. Qed.

Lemma update_row_self (s : row) : update_row s s = s.
Proof. now destruct s. Qed.

Lemma scalar_of_fix_row (c : column) (r : row) :
  scalar_of c (fix_row r) = scalar_of c r.
Proof. destruct c; reflexivity. Qed.

Lemma key_fix_row (ks : list column) (r : row) : key ks (fix_row r) = key ks r.
Proof. unfold key. apply map_ext. intros c. apply scalar_of_fix_row. Qed.

Lemma key_update_row (ks : list column) (t s : row) :
  key ks t = key ks s -> key ks (update_row t s) = key ks s.
Proof.
  unfold key. induction ks as [|c ks IH]; [reflexivity|].
  cbn [map]. intros [= Hc Hks]. f_equal; [|now apply IH].
  destruct c; try reflexivity. exact Hc.
Qed.

(** With [video_id] among the keys, a matched target row becomes the source
    row itself. *)
Lemma update_row_full (ks : list column) (t s : row) :
  In c_video_id ks -> key ks t = key ks s -> update_row t s = s.
Proof.
  intros Hin Hk. assert (Hv : video_id t = video_id s).
  { unfold key in Hk. induction ks as [|c ks IH]; [destruct Hin|].
    cbn [map] in Hk. injection Hk as Hc Hks. destruct Hin as [->|Hin]; [|auto].
    cbn in Hc. congruence. }
  destruct t, s. cbn in *. now subst.
Qed.

Section Merge.
Variable ks : list column.

Lemma matches_true (t s : row) :
  matches (Some ks) t s = true <-> key ks t = key ks s.
Proof. unfold matches. apply bool_decide_eq_true. Qed.

Lemma filter_all_false {A} (f : A -> bool) (l : list A) :
  (forall x, In x l -> f x = false) -> List.filter f l = [].
Proof.
  induction l as [|x l IH]; intros H; [reflexivity|]. cbn [List.filter].
  rewrite (H x (or_introl eq_refl)). apply IH. intros y Hy. apply H. now right.
Qed.

(** In a batch with pairwise distinct keys, a key selects one row. *)
Lemma filter_unique (src : list row) (s t : row) :
  NoDup (map (key ks) src) -> In s src -> key ks t = key ks s ->
  List.filter (matches (Some ks) t) src = [s].
Proof.
  intros Hnd Hin Hk. induction src as [|a src IH]; [destruct Hin|].
  cbn [map] in Hnd. apply NoDup_cons in Hnd as [Ha Hnd].
  cbn [List.filter]. destruct (matches (Some ks) t a) eqn:Hm.
  - apply matches_true in Hm. destruct Hin as [->|Hin].
    + f_equal. apply filter_all_false. intros x Hx.
      destruct (matches (Some ks) t x) eqn:Hx'; [|reflexivity].
      apply matches_true in Hx'. exfalso. apply Ha.
      rewrite <- Hm, Hx'. apply list_elem_of_In, in_map, Hx.
    + exfalso. apply Ha. rewrite <- Hm, Hk. apply list_elem_of_In, in_map, Hin.
  - destruct Hin as [->|Hin]; [|now apply IH].
    apply matches_true in Hk. congruence.
Qed.

(** What the MERGE does to one target row when the batch has distinct keys:
    nothing when no source row has its key, an update from the one that
    has. *)
Definition merged (src : list row) (t t' : row) : Prop :=
  merge_target (Some ks) src t = Some t' /\
  ((t' = t /\ List.filter (matches (Some ks) t) src = []) \/
   (exists s, In s src /\ key ks t = key ks s /\ t' = update_row t s)).

Lemma merge_target_merged (src : list row) (t : row) :
  NoDup (map (key ks) src) -> exists t', merged src t t'.
Proof.
  intros Hnd. unfold merged, merge_target.
  destruct (List.filter (matches (Some ks) t) src) as [|s l] eqn:Hf.
  - exists t. split; [reflexivity|]. now left.
  - assert (Hs : In s (List.filter (matches (Some ks) t) src))
      by (rewrite Hf; now left).
    apply filter_In in Hs as [Hin Hm]. apply matches_true in Hm.
    rewrite (filter_unique src s t Hnd Hin Hm) in Hf. injection Hf as <-.
    exists (update_row t s). split; [reflexivity|]. right. eauto.
Qed.

Lemma merge_targets (tgt src : list row) :
  NoDup (map (key ks) src) ->
  exists upd, mapM (merge_target (Some ks) src) tgt = Some upd /\
              Forall2 (merged src) tgt upd.
Proof.
  intros Hnd. induction tgt as [|t tgt (upd & Hu & HF)].
  - exists []. split; [reflexivity|constructor].
  - destruct (merge_target_merged src t Hnd) as (t' & Ht).
    exists (t' :: upd). split; [|now constructor].
    apply mapM_Some_2. constructor; [apply Ht|]. now apply mapM_Some_1.
Qed.

(** A row produced by the first MERGE is left as it is by a second one. *)
Lemma merged_fixed (src : list row) (t t' : row) :
  NoDup (map (key ks) src) -> merged src t t' ->
  merge_target (Some ks) src t' = Some t'.
Proof.
  intros Hnd (Hm & [(-> & Hf) | (s & Hin & Hk & ->)]); [exact Hm|].
  unfold merge_target.
  rewrite (filter_unique src s (update_row t s) Hnd Hin (key_update_row ks t s Hk)).
  reflexivity.
Qed.

Lemma merged_all_fixed (src tgt upd : list row) :
  NoDup (map (key ks) src) -> Forall2 (merged src) tgt upd ->
  Forall (fun t => merge_target (Some ks) src t = Some t) upd.
Proof.
  intros Hnd HF. induction HF as [|t t' tgt upd Ht HF IH]; constructor;
    eauto using merged_fixed.
Qed.

Lemma source_fixed (src : list row) (s : row) :
  NoDup (map (key ks) src) -> In s src ->
  merge_target (Some ks) src s = Some s.
Proof.
  intros Hnd Hin. unfold merge_target.
  rewrite (filter_unique src s s Hnd Hin eq_refl). now rewrite update_row_self.
Qed.

Lemma merged_keeps_match (src tgt upd : list row) (t s : row) :
  Forall2 (merged src) tgt upd -> In t tgt -> In s src ->
  key ks t = key ks s ->
  exists t', In t' upd /\ key ks t' = key ks s.
Proof.
  intros HF. induction HF as [|a a' tgt upd Ha HF IH]; intros Hin Hs Hk;
    [destruct Hin|].
  destruct Hin as [->|Hin].
  - exists a'. split; [now left|].
    destruct Ha as (_ & [(-> & Hf) | (s0 & _ & Hk0 & ->)]); [exact Hk|].
    rewrite (key_update_row ks t s0 Hk0). congruence.
  - destruct (IH Hin Hs Hk) as (t' & Ht' & Hk'). exists t'. split; [now right|exact Hk'].
Qed.

(** The MERGE of a batch with distinct keys succeeds, and merging the same
    batch again succeeds and changes nothing. *)
Lemma merge_rows_idempotent (tgt src : list row) :
  NoDup (map (key ks) src) ->
  exists tgt1,
    merge_rows (Some ks) tgt src = Some tgt1 /\
    merge_rows (Some ks) tgt1 src = Some tgt1 /\
    List.filter (unmatched (Some ks) tgt1) src = [] /\
    Forall (fun t => merge_target (Some ks) src t = Some t) tgt1.
Proof.
  intros Hnd. destruct (merge_targets tgt src Hnd) as (upd & Hu & HF).
  set (ins := List.filter (unmatched (Some ks) tgt) src).
  assert (Hins : map insert_row ins = ins).
  { rewrite <- (map_id ins) at 2. apply map_ext, insert_row_id. }
  exists (upd ++ ins).
  assert (Hfix : Forall (fun t => merge_target (Some ks) src t = Some t) (upd ++ ins)).
  { apply Forall_app. split.
    - eapply merged_all_fixed; eauto.
    - apply Forall_forall. intros s Hs. apply list_elem_of_In, filter_In in Hs as [Hs _].
      now apply source_fixed. }
  assert (Hno : List.filter (unmatched (Some ks) (upd ++ ins)) src = []).
  { apply filter_all_false. intros s Hs. unfold unmatched.
    apply negb_false_iff, existsb_exists.
    destruct (unmatched (Some ks) tgt s) eqn:Hun.
    - exists s. split; [|now apply matches_true].
      apply in_or_app. right. apply filter_In. now split.
    - unfold unmatched in Hun. apply negb_false_iff, existsb_exists in Hun
        as (t & Ht & Hm). apply matches_true in Hm.
      destruct (merged_keeps_match src tgt upd t s HF Ht Hs Hm) as (t' & Ht' & Hk').
      exists t'. split; [apply in_or_app; now left|now apply matches_true]. }
  split; [|split; [|split]]; [| |exact Hno|exact Hfix].
  - unfold merge_rows. rewrite Hu. cbn. fold ins. now rewrite Hins.
  - unfold merge_rows. rewrite Hno.
    rewrite (mapM_Some_2 _ (upd ++ ins) (upd ++ ins)).
    + cbn. now rewrite app_nil_r.
    + apply Forall_Forall2_diag. exact Hfix.
Qed.

End Merge.

(** A run of the loader on a non-empty batch, given the key columns and the
    destination table. *)
Lemma upsert_run (rows : list row) (dedupe_on : pystr) (w : warehouse) ks tgt :
  rows <> [] ->
  clause_keys (on_clause_of (keys_of dedupe_on)) = Some ks ->
  dest w = Some tgt ->
  upsert_subtitles_raw rows dedupe_on w =
    match merge_rows ks tgt (map fix_row rows) with
    | Some tgt' => (Warehouse (Some tgt') None, Ok tt)
    | None => (Warehouse (Some tgt) (Some (map fix_row rows)), Raise (py "BadRequest"))
    end.
Proof.
  intros Hne Hk Hd. unfold upsert_subtitles_raw.
  destruct rows as [|r rows]; [congruence|]. cbn [nonempty_list negb].
  unfold _load_tmp, mbind, bq_bind, delete_tmp, get_table, load_table_from_json,
    query_merge. cbn [dest tmp]. rewrite Hd. cbn [dest tmp]. rewrite Hk.
  destruct (merge_rows ks tgt (map fix_row (r :: rows))); reflexivity.
Qed.

Definition old_v1 : row := row_of "v1" "en" "old" "t1".
Definition new_v2 : row := row_of "v2" "en" "new" "t2".

(** C7, as stated, fails when the key list leaves [video_id] out: the
    matched row keeps its [video_id], a column that is then no key. *)
Lemma upsert_keeps_video_id :
  keys_of (py "subtitle_lang") = [py "subtitle_lang"] /\
  upsert_subtitles_raw [new_v2] (py "subtitle_lang") (Warehouse (Some [old_v1]) None)
  = (Warehouse (Some [update_row old_v1 (fix_row new_v2)]) None, Ok tt) /\
  video_id (update_row old_v1 (fix_row new_v2)) = py "v1" /\
  video_id (fix_row new_v2) = py "v2".
Proof. repeat split; vm_compute; reflexivity. Qed.

(** C7 (amended): [upsert_subtitles_raw] does nothing on an empty batch;
    otherwise it stages the (type-fixed) rows in the staging table, merges
    them with an ON clause that is the conjunction of null-safe equalities
    over the key list read from [dedupe_on] ([video_id] and [subtitle_lang]
    by default), and deletes the staging table once the merge has succeeded
    (on a failed merge the exception leaves it in place).  A destination row
    with no matching staged row is unchanged; one matched by a single staged
    row takes every column but [video_id] from it, which makes it the staged
    row whenever [video_id] is among the keys; a staged row matching no
    destination row is appended in full. *)
Theorem upsert_subtitles_raw_spec (rows : list row) (dedupe_on : pystr)
    (w : warehouse) :
  let keys := keys_of dedupe_on in
  let staged := map fix_row rows in
  (rows = [] -> upsert_subtitles_raw rows dedupe_on w = (w, Ok tt)) /\
  _build_merge_condition_from_keys keys = render (on_clause_of keys) /\
  on_clause_of (keys_of default_dedupe_on)
  = OnKeys [py "video_id"; py "subtitle_lang"] /\
  (rows <> [] -> forall ks tgt,
     clause_keys (on_clause_of keys) = Some ks -> dest w = Some tgt ->
     _load_tmp staged w = (Warehouse (Some tgt) (Some staged), Ok tt) /\
     (forall tgt', merge_rows ks tgt staged = Some tgt' ->
        upsert_subtitles_raw rows dedupe_on w
        = (Warehouse (Some tgt') None, Ok tt)) /\
     (merge_rows ks tgt staged = None ->
        upsert_subtitles_raw rows dedupe_on w
        = (Warehouse (Some tgt) (Some staged), Raise (py "BadRequest")))) /\
  (forall ks src t,
     (List.filter (matches ks t) src = [] -> merge_target ks src t = Some t) /\
     (forall s, List.filter (matches ks t) src = [s] ->
        merge_target ks src t = Some (update_row t s) /\
        (forall c, c <> c_video_id -> cell_of c (update_row t s) = cell_of c s) /\
        (forall l, ks = Some l -> In c_video_id l -> update_row t s = s))) /\
  (forall ks tgt src tgt', merge_rows ks tgt src = Some tgt' ->
     exists upd, mapM (merge_target ks src) tgt = Some upd /\
                 tgt' = upd ++ List.filter (unmatched ks tgt) src).
Proof.
  intros keys staged. split; [|split; [|split; [|split; [|split]]]].
  - intros ->. reflexivity.
  - apply render_on_clause.
  - vm_compute. reflexivity.
  - intros Hne ks tgt Hk Hd. split; [|split].
    + unfold _load_tmp, mbind, bq_bind, delete_tmp, get_table, load_table_from_json.
      cbn [dest]. now rewrite Hd.
    + intros tgt' Hm. rewrite (upsert_run rows dedupe_on w ks tgt Hne Hk Hd).
      fold staged. now rewrite Hm.
    + intros Hm. rewrite (upsert_run rows dedupe_on w ks tgt Hne Hk Hd).
      fold staged. now rewrite Hm.
  - intros ks src t. split.
    + intros Hf. unfold merge_target. now rewrite Hf.
    + intros s Hf. split; [|split].
      * unfold merge_target. now rewrite Hf.
      * intros c Hc. rewrite update_row_cells. now rewrite bool_decide_eq_false_2.
      * intros l -> Hin. apply (update_row_full l); [exact Hin|].
        apply matches_true.
        assert (Hs : In s (List.filter (matches (Some l) t) src))
          by (rewrite Hf; now left).
        now apply filter_In in Hs.
  - intros ks tgt src tgt'. unfold merge_rows.
    destruct (mapM (merge_target ks src) tgt) as [upd|]; cbn; [|discriminate].
    intros [= <-]. exists upd. split; [reflexivity|]. f_equal.
    rewrite <- (map_id (List.filter _ src)) at 2. apply map_ext, insert_row_id.
Qed.

Lemma upsert_subtitles_raw_spec_witness :
  upsert_subtitles_raw [new_v2] default_dedupe_on (Warehouse (Some [old_v1]) None)
  = (Warehouse (Some [old_v1; fix_row new_v2]) None, Ok tt).
Proof.
  refine (proj1 (proj2 (proj1 (proj2 (proj2 (proj2
    (upsert_subtitles_raw_spec [new_v2] default_dedupe_on
       (Warehouse (Some [old_v1]) None))))) _
    (Some [c_video_id; c_subtitle_lang]) [old_v1] _ _)) _ _).
  - discriminate.
  - vm_compute. reflexivity.
  - reflexivity.
  - vm_compute. reflexivity.
Defined.

Definition first_v1 : row := row_of "v1" "en" "a" "t1".
Definition again_v1 : row := row_of "v1" "en" "a" "t2".

(** C8, as stated, fails. With an empty key list the ON clause is [FALSE]
    and a second merge inserts the batch again; with two rows of one key in
    the batch the first merge inserts both and the second one fails. *)
Lemma upsert_twice_differs :
  (upsert_subtitles_raw [first_v1] (py "") (Warehouse (Some []) None)
   = (Warehouse (Some [fix_row first_v1]) None, Ok tt) /\
   upsert_subtitles_raw [first_v1] (py "") (Warehouse (Some [fix_row first_v1]) None)
   = (Warehouse (Some [fix_row first_v1; fix_row first_v1]) None, Ok tt)) /\
  (upsert_subtitles_raw [first_v1; again_v1] default_dedupe_on (Warehouse (Some []) None)
   = (Warehouse (Some [fix_row first_v1; fix_row again_v1]) None, Ok tt) /\
   upsert_subtitles_raw [first_v1; again_v1] default_dedupe_on
     (Warehouse (Some [fix_row first_v1; fix_row again_v1]) None)
   = (Warehouse (Some [fix_row first_v1; fix_row again_v1])
                (Some [fix_row first_v1; fix_row again_v1]),
      Raise (py "BadRequest"))).
Proof. repeat split; vm_compute; reflexivity. Qed.

(** C8 (amended): when the key list names comparable columns (at least one)
    and the rows of the batch have pairwise distinct keys, upserting the
    batch succeeds, and upserting it again into the result succeeds and
    leaves the warehouse as it is: the second merge inserts no row and
    rewrites every row of the destination to the values it already has. *)
Theorem upsert_idempotent (rows : list row) (dedupe_on : pystr) (w : warehouse)
    (ks : list column) (tgt : list row) :
  clause_keys (on_clause_of (keys_of dedupe_on)) = Some (Some ks) ->
  dest w = Some tgt ->
  NoDup (map (key ks) rows) ->
  exists w1,
    upsert_subtitles_raw rows dedupe_on w = (w1, Ok tt) /\
    upsert_subtitles_raw rows dedupe_on w1 = (w1, Ok tt) /\
    (rows <> [] ->
     exists tgt1,
       w1 = Warehouse (Some tgt1) None /\
       List.filter (unmatched (Some ks) tgt1) (map fix_row rows) = [] /\
       Forall (fun t => merge_target (Some ks) (map fix_row rows) t = Some t) tgt1).
Proof.
  intros Hk Hd Hnd. destruct rows as [|r rows].
  { exists w. repeat split; try reflexivity. congruence. }
  set (batch := r :: rows) in *.
  assert (Hne : batch <> []) by discriminate.
  assert (Hnd' : NoDup (map (key ks) (map fix_row batch))).
  { rewrite map_map. erewrite map_ext; [exact Hnd|]. intros a. apply key_fix_row. }
  destruct (merge_rows_idempotent ks tgt (map fix_row batch) Hnd')
    as (tgt1 & H1 & H2 & Hno & Hfix).
  exists (Warehouse (Some tgt1) None). split; [|split].
  - rewrite (upsert_run batch dedupe_on w (Some ks) tgt Hne Hk Hd). now rewrite H1.
  - rewrite (upsert_run batch dedupe_on (Warehouse (Some tgt1) None)
               (Some ks) tgt1 Hne Hk eq_refl).
    now rewrite H2.
  - intros _. exists tgt1. auto.
Qed.

Lemma upsert_idempotent_witness :
  exists w1,
    upsert_subtitles_raw [new_v2; first_v1] default_dedupe_on
      (Warehouse (Some [old_v1]) None) = (w1, Ok tt) /\
    upsert_subtitles_raw [new_v2; first_v1] default_dedupe_on w1 = (w1, Ok tt).
Proof.
  destruct (upsert_idempotent [new_v2; first_v1] default_dedupe_on
              (Warehouse (Some [old_v1]) None) [c_video_id; c_subtitle_lang] [old_v1])
    as (w1 & H1 & H2 & _).
  - vm_compute. reflexivity.
  - reflexivity.
  - vm_compute. repeat constructor; rewrite ?list_elem_of_In; cbn; intuition discriminate.
  - exists w1. split; assumption.
Defined.

End UpsertFacts.

Module LoadToBqFacts.
Import LoadToBq.

(** The segments merge never rewrites a destination row: it only appends. *)
Lemma merge_segments_keeps (tgt src : list seg_row) :
  take (length tgt) (merge_segments tgt src) = tgt.
Proof. unfold merge_segments. now rewrite take_app_length. Qed.

Definition seg_v1 : seg_row :=
  SegRow (Some (py "v1")) (Some (py "en")) (Some 0) (Some 0%Q) (Some 1%Q)
         (Some (py "old")).
Definition seg_v1_new : seg_row :=
  SegRow (Some (py "v1")) (Some (py "en")) (Some 0) (Some 0%Q) (Some 2%Q)
         (Some (py "new")).
Definition seg_null : seg_row :=
  SegRow (Some (py "v1")) None (Some 0) None None (Some (py "x")).

(** A matched segment row keeps its old values, and a staged row with a NULL
    key column matches nothing, itself included. *)
Example merge_segments_plain_equality :
  merge_segments [seg_v1] [seg_v1_new] = [seg_v1] /\
  merge_segments [seg_null] [seg_null] = [seg_null; seg_null].
Proof. split; vm_compute; reflexivity. Qed.

End LoadToBqFacts.

(** * Further properties of the modelled code *)

Module BackoffLaws.
Import Backoff.

Lemma pymin_cases (a b : Q) :
  ((b < a)%Q /\ pymin a b = b) \/ ((a <= b)%Q /\ pymin a b = a).
Proof.
  unfold pymin. destruct (b ?= a)%Q eqn:E.
  - right. split; [|reflexivity]. apply Qeq_alt in E. rewrite E. apply Qle_refl.
  - left. split; [|reflexivity]. now apply Qlt_alt.
  - right. split; [|reflexivity]. apply Qgt_alt in E. now apply Qlt_le_weak.
Qed.

Lemma backoff_loop_nonneg (n : nat) (d cap f : Q) (k : nat) (v : Q) :
  (0 <= cap)%Q -> (0 <= f)%Q -> (0 <= d)%Q ->
  backoff_loop n d cap f !! k = Some v -> (0 <= v)%Q.
Proof.
  intros Hc Hf. revert d k. induction n as [|n IH]; intros d k Hd Hv; [discriminate|].
  destruct k as [|k]; simpl in Hv.
  - injection Hv as <-. destruct (pymin_cases d cap) as [[_ ->]|[_ ->]]; assumption.
  - apply (IH (pymin (d * f) cap) k); [|exact Hv].
    destruct (pymin_cases (d * f) cap) as [[_ ->]|[_ ->]]; [assumption|nra].
Qed.

(** With [base >= 0], [cap >= 0] and [factor >= 1] the delays never shrink
    from one attempt to the next, and none is negative. *)
Theorem backoff_non_decreasing (max_tries : Z) (base cap factor : Q)
    (k : nat) (p v : Q) :
  (0 <= base)%Q -> (0 <= cap)%Q -> (1 <= factor)%Q ->
  backoff_sequence max_tries base cap factor !! k = Some p ->
  backoff_sequence max_tries base cap factor !! S k = Some v ->
  (0 <= p <= v)%Q.
Proof.
  intros Hb Hc Hf Hp Hv. unfold backoff_sequence in *.
  assert (Hf0 : (0 <= factor)%Q) by lra.
  assert (H0 : (0 <= p)%Q) by exact (backoff_loop_nonneg _ _ _ _ _ _ Hc Hf0 Hb Hp).
  split; [exact H0|].
  pose proof (BackoffFacts.backoff_loop_le_cap _ _ _ _ _ _ Hp) as Hpc.
  destruct (Z.to_nat max_tries) as [|n]; [discriminate|].
  destruct k as [|k]; simpl in Hp, Hv.
  - injection Hp as <-. apply BackoffFacts.backoff_loop_head in Hv.
    rewrite BackoffFacts.pymin_idem in Hv. rewrite Hv.
    destruct (pymin_cases base cap) as [[H1 ->]|[H1 ->]];
      destruct (pymin_cases (base * factor) cap) as [[H2 ->]|[H2 ->]]; nra.
  - assert (Hstep : v = pymin (p * factor) cap)
      by (eapply BackoffFacts.backoff_loop_step; eauto using BackoffFacts.pymin_idem).
    rewrite Hstep.
    destruct (pymin_cases (p * factor) cap) as [[_ ->]|[_ ->]]; [exact Hpc|nra].
Qed.

Lemma backoff_non_decreasing_witness : (0 <= 2#1 <= 4#1)%Q.
Proof.
  apply (backoff_non_decreasing 3 1 16 2 1 (2#1) (4#1)); vm_compute;
    (discriminate || reflexivity).
Defined.

End BackoffLaws.

Module FetchLaws.
Import Json3 LangPolicy Fetch.

Lemma first_startswith_member (ks : list pystr) (pat k : pystr) :
  first_startswith ks pat = Some k -> k ∈ ks.
Proof.
  induction ks as [|a ks IH]; [discriminate|]. cbn [first_startswith].
  destruct (startswith a pat).
  - intros [= <-]. left.
  - intros H. right. auto.
Qed.

Lemma scan_order_member (ks order : list pystr) (k : pystr) :
  scan_order ks order = Some k -> k ∈ ks.
Proof.
  induction order as [|pat order IH]; [discriminate|]. cbn [scan_order].
  destruct (endswith pat (py "-")).
  - destruct (first_startswith ks pat) as [k'|] eqn:E; [|exact IH].
    intros [= <-]. eapply first_startswith_member; eauto.
  - case_bool_decide; [|exact IH]. now intros [= <-].
Qed.

Lemma lookup_key_member {V} (d : list (pystr * V)) (k : pystr) :
  k ∈ keys d -> exists v, lookup_key d k = Some v.
Proof.
  induction d as [|[k' v] d IH]; cbn [keys map lookup_key fst].
  - intros H. inversion H.
  - intros H. case_bool_decide; [eauto|].
    apply IH. apply elem_of_cons in H as [->|H]; [congruence|exact H].
Qed.

(** The key the orchestrator resolves ([best_lang_key], or else the first
    key) is always a key of the mapping it was resolved in, so reading the
    mapping at that key cannot raise [KeyError]. *)
Theorem choose_key_member {V} (d : list (pystr * V)) (pref fb k : pystr) :
  choose_key d pref fb = Some k ->
  k ∈ keys d /\ exists v, getitem d k = Ok v.
Proof.
  intros H. assert (Hk : k ∈ keys d).
  { unfold choose_key, py_or in H. destruct (truthy _).
    - eapply scan_order_member. exact H.
    - destruct (keys d) as [|a ks]; [discriminate|]. injection H as <-. left. }
  split; [exact Hk|]. unfold getitem.
  destruct (lookup_key_member d k Hk) as [v ->]. eauto.
Qed.

Lemma choose_key_member_witness :
  py "ko" ∈ keys [(py "ko", tt); (py "fr", tt)] /\
  exists v, getitem [(py "ko", tt); (py "fr", tt)] (py "ko") = Ok v.
Proof.
  apply (choose_key_member [(py "ko", tt); (py "fr", tt)] (py "en") (py "de")).
  vm_compute. reflexivity.
Defined.

(** An attempt of [download_text] that is followed by another one: a
    response with a 4xx or 5xx status (429, 500 and 503 directly, the others
    through [raise_for_status]) or a [RequestException]. *)
Definition retried (o : http_outcome) : bool :=
  match o with
  | Response st _ => retry_status st || error_status st
  | RequestError _ => true
  | OtherError _ => false
  end.

Lemma download_text_unfold (B : backend) (n : nat) (u : pystr) :
  download_text B n u =
    download_loop B [1#1; 2#1; 4#1]%Q n u.
Proof.
  unfold download_text. now rewrite BackoffFacts.default_sequence_values.
Qed.

(** [download_text] makes at most three GETs: its result is the same under
    two backends that agree on the three slots it may use. *)
Theorem download_text_three_attempts (B B' : backend) (n : nat) (u : pystr) :
  (forall i, (i < 3)%nat -> http_get B (n + i) u = http_get B' (n + i) u) ->
  download_text B n u = download_text B' n u.
Proof.
  intros H. rewrite !download_text_unfold. cbn [download_loop].
  pose proof (H 0%nat ltac:(lia)) as H0. pose proof (H 1%nat ltac:(lia)) as H1.
  pose proof (H 2%nat ltac:(lia)) as H2.
  rewrite Nat.add_0_r in H0. rewrite Nat.add_1_r in H1.
  replace (n + 2)%nat with (S (S n)) in H2 by lia.
  rewrite <- H0, <- H1, <- H2. reflexivity.
Qed.

Definition flaky_backend (good : nat) : backend :=
  Backend (fun _ => Raise []) (fun _ => Raise [])
          (fun n _ => if (n <? good)%nat then Response 404 [] else Response 200 (py "ok"))
          (fun _ => Raise []).

Lemma download_text_three_attempts_witness :
  download_text (flaky_backend 3) 0 (py "u") = download_text (flaky_backend 7) 0 (py "u").
Proof.
  apply download_text_three_attempts. intros i Hi. cbn.
  destruct i as [|[|[|i]]]; [reflexivity|reflexivity|reflexivity|lia].
Defined.

(** [download_text] gives up with [None] exactly when each of its three
    attempts ended in a 4xx or 5xx status or a [RequestException]; such
    attempts never raise. *)
Theorem download_text_gives_up (B : backend) (n : nat) (u : pystr) :
  download_text B n u = Ok None <->
  retried (http_get B n u) = true /\
  retried (http_get B (S n) u) = true /\
  retried (http_get B (S (S n)) u) = true.
Proof.
  rewrite download_text_unfold. cbn [download_loop]. unfold retried.
  destruct (http_get B n u) as [st body|e|e];
    [destruct (retry_status st); [|destruct (error_status st)]| |];
    cbn [orb]; try (split; [discriminate|intros (? & _); discriminate]).
  all: destruct (http_get B (S n) u) as [st1 body1|e1|e1];
    [destruct (retry_status st1); [|destruct (error_status st1)]| |];
    cbn [orb]; try (split; [discriminate|intros (_ & ? & _); discriminate]).
  all: destruct (http_get B (S (S n)) u) as [st2 body2|e2|e2];
    [destruct (retry_status st2); [|destruct (error_status st2)]| |];
    cbn [orb]; try (split; [discriminate|intros (_ & _ & ?); discriminate]).
  all: split; [intros _; repeat split|reflexivity].
Qed.

End FetchLaws.

Module TextLaws.
Import Json3.

Section Strip.
Variable f : N -> bool.

Lemma lstrip_by_head (s : pystr) (c : N) :
  head (lstrip_by f s) = Some c -> f c = false.
Proof.
  induction s as [|a s IH]; [discriminate|]. cbn [lstrip_by].
  destruct (f a) eqn:E; [exact IH|]. now intros [= <-].
Qed.

Lemma lstrip_by_In (s : pystr) (x : N) : In x (lstrip_by f s) -> In x s.
Proof.
  induction s as [|a s IH]; [auto|]. cbn [lstrip_by].
  destruct (f a); [|auto]. intros H. right. auto.
Qed.

Lemma lstrip_by_snoc (l : pystr) (c : N) :
  f c = false -> lstrip_by f (l ++ [c]) = lstrip_by f l ++ [c].
Proof.
  intros Hc. induction l as [|a l IH]; cbn [app lstrip_by].
  - now rewrite Hc.
  - destruct (f a); [exact IH|reflexivity].
Qed.

Lemma last_rev_head (l : pystr) : last (rev l) = head l.
Proof. destruct l as [|a l]; [reflexivity|]. cbn [rev]. apply last_snoc. Qed.

Lemma strip_by_In (s : pystr) (x : N) : In x (strip_by f s) -> In x s.
Proof.
  unfold strip_by, rstrip_by. intros H. apply in_rev in H.
  apply lstrip_by_In in H. apply in_rev in H. now apply lstrip_by_In in H.
Qed.

Lemma strip_by_last (s : pystr) (c : N) :
  last (strip_by f s) = Some c -> f c = false.
Proof.
  unfold strip_by, rstrip_by. rewrite last_rev_head. apply lstrip_by_head.
Qed.

Lemma strip_by_head (s : pystr) (c : N) :
  head (strip_by f s) = Some c -> f c = false.
Proof.
  unfold strip_by, rstrip_by.
  destruct (lstrip_by f s) as [|a r] eqn:E; [discriminate|].
  assert (Ha : f a = false) by (apply (lstrip_by_head s); now rewrite E).
  cbn [rev]. rewrite (lstrip_by_snoc _ _ Ha), rev_app_distr. cbn.
  now intros [= <-].
Qed.

End Strip.

(** A normalized caption text: not empty, no newline inside, no whitespace
    at either end. *)
Definition normalized (t : pystr) : Prop :=
  t <> [] /\ ~ In newline t /\
  (forall c, head t = Some c -> is_space c = false) /\
  (forall c, last t = Some c -> is_space c = false).

Lemma replace_newline_In (s : pystr) : ~ In newline (replace_char newline space s).
Proof.
  unfold replace_char. intros H. apply in_flat_map in H as (c & _ & Hc).
  destruct (N.eqb c newline) eqn:E.
  - destruct Hc as [Hc|[]]. discriminate.
  - apply N.eqb_neq in E. destruct Hc as [Hc|[]]. congruence.
Qed.

Lemma strip_replace_normalized (s : pystr) :
  nonempty (strip (replace_char newline space s)) = true ->
  normalized (strip (replace_char newline space s)).
Proof.
  intros Hne. unfold strip in *. repeat split.
  - intros E. rewrite E in Hne. discriminate.
  - intros H. apply strip_by_In in H. exact (replace_newline_In s H).
  - apply strip_by_head.
  - apply strip_by_last.
Qed.

(** Every segment [parse_json3_events] emits has a normalized text: it is
    not empty, holds no newline, and neither starts nor ends with
    whitespace. *)
Theorem json3_texts_normalized (json3_obj : option json3) :
  Forall (fun s => normalized (text s)) (fst (parse_json3_events json3_obj)).
Proof.
  rewrite Json3Facts.parse_json3_events_segments. apply Forall_forall.
  intros s Hs. apply elem_of_lookup_imap in Hs as (i & ev & -> & Hev).
  apply list_elem_of_lookup_2, list_elem_of_In, filter_In in Hev as [_ Hr].
  unfold Json3Facts.retained in Hr. apply andb_true_iff in Hr as [_ Hr].
  cbn [text Json3Facts.segment_of]. now apply strip_replace_normalized.
Qed.

Section Vtt.
Variable todecimal : N -> option Z.

Lemma emit_normalized (a : WebVtt.acc) (st en : Q) (lines : list pystr) :
  Forall (fun s => normalized (text s)) (WebVtt.acc_segs a) ->
  Forall (fun s => normalized (text s))
         (WebVtt.acc_segs (WebVtt.emit a st en (WebVtt.cue_text lines))).
Proof.
  intros Ha. unfold WebVtt.emit.
  destruct (nonempty (WebVtt.cue_text lines)) eqn:Hne; [|exact Ha].
  cbn [WebVtt.acc_segs]. apply Forall_app. split; [exact Ha|].
  constructor; [|constructor]. cbn [text].
  now apply strip_replace_normalized.
Qed.

Lemma vtt_loop_normalized (lines : list pystr) (a : WebVtt.acc) :
  Forall (fun s => normalized (text s)) (WebVtt.acc_segs a) ->
  Forall (fun s => normalized (text s))
         (WebVtt.acc_segs (WebVtt.vtt_loop todecimal lines a)).
Proof.
  funelim (WebVtt.vtt_loop todecimal lines a); intros Hok;
    auto using emit_normalized.
Qed.

(** Every cue [parse_webvtt] emits has a normalized text too. *)
Theorem webvtt_texts_normalized (vtt_text : pystr) :
  Forall (fun s => normalized (text s))
         (fst (WebVtt.parse_webvtt todecimal vtt_text)).
Proof.
  unfold WebVtt.parse_webvtt. cbn [fst]. apply vtt_loop_normalized. constructor.
Qed.

End Vtt.

End TextLaws.

Module YtSubtitlesLaws.
Import Json3 LangPolicy Fetch YtSubtitles.

(** The snippets of [_events_to_snippets] are numbered by position, end
    where start plus duration says, carry a non-empty text without
    whitespace at either end, and are no more than the events. *)
Theorem events_to_snippets_invariants (j : json3) :
  let out := _events_to_snippets j in
  map sn_idx out = seq 0 (length out) /\
  Forall (fun s => sn_end s = (sn_start s + sn_duration s)%Q /\
                   sn_text s <> [] /\
                   (forall c, head (sn_text s) = Some c -> is_space c = false) /\
                   (forall c, last (sn_text s) = Some c -> is_space c = false)) out /\
  (length out <= length (default [] (events j)))%nat.
Proof.
  intros out. subst out. rewrite Json3Facts.events_to_snippets_spec.
  set (kept := List.filter Json3Facts.snippet_retained (default [] (events j))).
  split; [|split].
  - change (map sn_idx ?l) with (sn_idx <$> l). rewrite fmap_imap, length_imap.
    rewrite <- (list_fmap_id (seq 0 _)), <- imap_seq_0.
    apply imap_ext. reflexivity.
  - apply Forall_forall. intros s Hs.
    apply elem_of_lookup_imap in Hs as (i & e & -> & He).
    apply list_elem_of_lookup_2, list_elem_of_In, filter_In in He as [_ Hr].
    unfold Json3Facts.snippet_retained in Hr.
    apply andb_true_iff in Hr as [_ Hr].
    cbn. split; [reflexivity|]. split; [|split].
    + intros E. rewrite E in Hr. discriminate.
    + apply TextLaws.strip_by_head.
    + apply TextLaws.strip_by_last.
  - rewrite length_imap. apply filter_length_le.
Qed.








(** What holds of every row [get_subtitles] returns. *)
Definition row_consistent (vid : pystr) (row : subtitle_row) : Prop :=
  video_id row = vid /\
  snippet_count row = length (snippets row) /\
  (subtitle_text row = None <-> snippets row = []) /\
  (snippets row <> [] ->
     subtitle_text row = Some (join space (map sn_text (snippets row)))) /\
  (errors row = [] \/ (exists e, errors row = [e]) /\ snippets row = []).

(** Unless its extraction returns [None], [get_subtitles] returns a row
    for the requested video whose [snippet_count] is the number of its
    snippets, whose text is absent exactly when it has no snippet and is
    otherwise the space-join of the snippet texts, and which has either no
    error, or exactly one error and then no snippet.  When the extraction
    returns [None] it returns no row: it raises [AttributeError]. *)
Theorem get_subtitles_row_consistent (YB : backend) (vid : pystr)
    (langs : option (list pystr)) :
  (_extract_info YB vid <> Ok None ->
   exists row, get_subtitles YB vid langs = Ok row /\ row_consistent vid row) /\
  (_extract_info YB vid = Ok None ->
   get_subtitles YB vid langs = Raise (py "AttributeError")) /\
  (forall row, get_subtitles YB vid langs = Ok row -> row_consistent vid row).
Proof.
  assert (Hok : _extract_info YB vid <> Ok None ->
                exists row, get_subtitles YB vid langs = Ok row /\
                            row_consistent vid row).
  { intros Hn. unfold get_subtitles, row_consistent.
    destruct (_extract_info YB vid) as [[i|]|e]; [|congruence|].
    2:{ eexists. split; [reflexivity|]. cbn. repeat split; eauto; congruence. }
    cbn [pick_track mbind result_bind].
    destruct (_pick_json3_track i _) as [[u lang] src].
    destruct (negb (nonempty u)).
    { eexists. split; [reflexivity|]. cbn. repeat split; eauto; congruence. }
    unfold try_except. destruct (_download YB u) as [d|e]; cbn [mbind result_bind].
    2:{ eexists. split; [reflexivity|]. cbn. repeat split; eauto; congruence. }
    eexists. split; [reflexivity|]. cbn.
    destruct (_events_to_snippets d) as [|s sn]; cbn.
    - repeat split; eauto; congruence.
    - repeat split; eauto; try congruence; try discriminate. }
  assert (Hnone : _extract_info YB vid = Ok None ->
                  get_subtitles YB vid langs = Raise (py "AttributeError")).
  { intros H. unfold get_subtitles. now rewrite H. }
  split; [exact Hok|]. split; [exact Hnone|].
  intros row Hrow. destruct (_extract_info YB vid) as [[i|]|e] eqn:E.
  - destruct Hok as (row' & Hr & Hc); [discriminate|]. congruence.
  - rewrite Hnone in Hrow by reflexivity. discriminate.
  - destruct Hok as (row' & Hr & Hc); [discriminate|]. congruence.
Qed.

(** An extraction that finds no caption track. *)
Definition no_tracks : backend :=
  Backend (fun _ => Ok (Some (Info None None None)))
          (fun _ => Raise (py "ConnectionError"))
          (py "2024-01-01T00:00:00+07:00").

Lemma get_subtitles_row_consistent_witness :
  (exists row, get_subtitles no_tracks (py "juLp1JUOGck") None = Ok row /\
               row_consistent (py "juLp1JUOGck") row) /\
  get_subtitles FetchFacts.none_backend (py "juLp1JUOGck") None
  = Raise (py "AttributeError").
Proof.
  split.
  - apply (proj1 (get_subtitles_row_consistent no_tracks (py "juLp1JUOGck") None)).
    discriminate.
  - apply (proj1 (proj2 (get_subtitles_row_consistent FetchFacts.none_backend
                           (py "juLp1JUOGck") None))).
    reflexivity.
Defined.

End YtSubtitlesLaws.

Module UpsertLaws.
Import Upsert.

(** How a run of the loader ends, read off its monadic definition. *)
Lemma upsert_outcome (rows : list row) (dedupe_on : pystr) (w : warehouse) :
  rows <> [] ->
  let staged := map fix_row rows in
  match dest w with
  | None =>
      upsert_subtitles_raw rows dedupe_on w
      = (Warehouse None None, Raise (py "NotFound"))
  | Some tgt =>
      match clause_keys (on_clause_of (keys_of dedupe_on)) with
      | None =>
          upsert_subtitles_raw rows dedupe_on w
          = (Warehouse (Some tgt) (Some staged), Raise (py "BadRequest"))
      | Some ks =>
          upsert_subtitles_raw rows dedupe_on w =
            match merge_rows ks tgt staged with
            | Some tgt' => (Warehouse (Some tgt') None, Ok tt)
            | None => (Warehouse (Some tgt) (Some staged), Raise (py "BadRequest"))
            end
      end
  end.
Proof.
  intros Hne staged. destruct (dest w) as [tgt|] eqn:Hd.
  - destruct (clause_keys (on_clause_of (keys_of dedupe_on))) as [ks|] eqn:Hk.
    + now apply UpsertFacts.upsert_run.
    + unfold upsert_subtitles_raw. destruct rows as [|r rows]; [congruence|].
      cbn [nonempty_list negb].
      unfold _load_tmp, mbind, bq_bind, delete_tmp, get_table,
        load_table_from_json, query_merge.
      cbn [dest tmp]. rewrite Hd. cbn [dest tmp]. now rewrite Hk.
  - unfold upsert_subtitles_raw. destruct rows as [|r rows]; [congruence|].
    cbn [nonempty_list negb].
    unfold _load_tmp, mbind, bq_bind, delete_tmp, get_table.
    cbn [dest tmp]. now rewrite Hd.
Qed.

(** The warehouse of the model fails in two ways only: [get_table] with
    [NotFound] when the destination table is missing, and the MERGE with
    [BadRequest] when it is rejected (a key that names no comparable
    column, or several staged rows matching one destination row); a
    failure of the transport or of the final [delete_table] is not
    modelled.  A run of [upsert_subtitles_raw] that raises does so in one
    of these two ways and leaves the destination table as it was; a run
    that returns on a non-empty batch leaves no staging table; and when the
    destination table does not exist the run raises [NotFound] before
    staging anything, having deleted a stale staging table. *)
Theorem upsert_all_or_nothing (rows : list row) (dedupe_on : pystr) (w : warehouse) :
  let w' := fst (upsert_subtitles_raw rows dedupe_on w) in
  let r := snd (upsert_subtitles_raw rows dedupe_on w) in
  (forall e, r = Raise e ->
     (e = py "NotFound" /\ dest w = None \/
      e = py "BadRequest" /\ dest w <> None) /\
     dest w' = dest w) /\
  (r = Ok tt -> rows <> [] -> tmp w' = None) /\
  (dest w = None -> rows <> [] -> r = Raise (py "NotFound") /\ tmp w' = None).
Proof.
  cbv zeta. destruct rows as [|r0 rows].
  { cbn. repeat split; congruence. }
  assert (Hne : r0 :: rows <> []) by discriminate.
  pose proof (upsert_outcome (r0 :: rows) dedupe_on w Hne) as H. cbv zeta in H.
  destruct (dest w) as [tgt|] eqn:Hd.
  - assert (Hbad : forall e : pystr,
              @Raise unit (py "BadRequest") = Raise e ->
              (e = py "NotFound" /\ Some tgt = None \/
               e = py "BadRequest" /\ Some tgt <> @None (list row)) /\
              Some tgt = Some tgt).
    { intros e [= <-]. split; [right; split; [reflexivity|discriminate]|reflexivity]. }
    destruct (clause_keys _) as [ks|].
    + destruct (merge_rows ks tgt _); rewrite H; cbn [fst snd dest tmp].
      * split; [discriminate|]. split; [reflexivity|discriminate].
      * split; [exact Hbad|]. split; discriminate.
    + rewrite H. cbn [fst snd dest tmp]. split; [exact Hbad|]. split; discriminate.
  - rewrite H. cbn [fst snd dest tmp]. split; [|split].
    + intros e [= <-]. split; [left; split; reflexivity|reflexivity].
    + discriminate.
    + intros _ _. split; reflexivity.
Qed.

Lemma merge_rows_inv (ks : option (list column)) (tgt src tgt' : list row) :
  merge_rows ks tgt src = Some tgt' ->
  exists upd,
    Forall2 (fun t t' => merge_target ks src t = Some t') tgt upd /\
    tgt' = upd ++ List.filter (unmatched ks tgt) src.
Proof.
  unfold merge_rows.
  destruct (mapM (merge_target ks src) tgt) as [upd|] eqn:Hu; [|discriminate].
  cbn [mbind option_bind]. intros [= <-]. exists upd.
  split; [now apply mapM_Some_1|]. f_equal.
  rewrite <- (map_id (List.filter _ src)) at 2.
  apply map_ext, UpsertFacts.insert_row_id.
Qed.

Lemma list_filter_length {A} (f : A -> bool) (l : list A) :
  (length (List.filter f l) <= length l)%nat.
Proof.
  induction l as [|a l IH]; cbn [List.filter length]; [lia|].
  destruct (f a); cbn [length]; lia.
Qed.

(** A successful upsert never deletes or moves a row: every row of the
    destination keeps its position and its [video_id], a row that no staged
    row matches is unchanged, and the table grows by at most the size of the
    batch. *)
Theorem upsert_keeps_rows (rows : list row) (dedupe_on : pystr)
    (w w' : warehouse) (tgt : list row) :
  upsert_subtitles_raw rows dedupe_on w = (w', Ok tt) ->
  dest w = Some tgt ->
  exists tgt',
    dest w' = Some tgt' /\
    (length tgt <= length tgt' <= length tgt + length rows)%nat /\
    (forall i t, tgt !! i = Some t ->
       exists t', tgt' !! i = Some t' /\ video_id t' = video_id t /\
         ((forall ks, clause_keys (on_clause_of (keys_of dedupe_on)) = Some ks ->
            Forall (fun s => matches ks t (fix_row s) = false) rows) -> t' = t)).
Proof.
  intros Hrun Hd. destruct rows as [|r0 rows].
  { cbn in Hrun. injection Hrun as <-. exists tgt. split; [exact Hd|].
    split; [cbn; lia|]. intros i t Ht. exists t. auto. }
  assert (Hne : r0 :: rows <> []) by discriminate.
  pose proof (upsert_outcome (r0 :: rows) dedupe_on w Hne) as H. cbv zeta in H.
  rewrite Hd in H. destruct (clause_keys _) as [ks|] eqn:Hk; [|congruence].
  destruct (merge_rows ks tgt _) as [tgt'|] eqn:Hm; [|congruence].
  rewrite H in Hrun. injection Hrun as <-. exists tgt'. split; [reflexivity|].
  set (staged := map fix_row (r0 :: rows)) in *.
  apply merge_rows_inv in Hm as (upd & Hu & ->).
  pose proof (Forall2_length _ _ _ Hu) as Hlen.
  split.
  - rewrite length_app.
    pose proof (list_filter_length (unmatched ks tgt) staged) as Hf.
    unfold staged in Hf at 2. rewrite length_map in Hf. lia.
  - intros i t Ht.
    destruct (Forall2_lookup_l _ _ _ _ _ Hu Ht) as (t' & Ht' & Hmt).
    exists t'. split; [now apply lookup_app_l_Some|].
    unfold merge_target in Hmt.
    destruct (List.filter (matches ks t) staged) as [|s [|s' l]] eqn:Hf;
      [| |discriminate]; injection Hmt as <-.
    + auto.
    + split; [reflexivity|]. intros Hall. exfalso.
      assert (Hs : In s (List.filter (matches ks t) staged))
        by (rewrite Hf; now left).
      apply filter_In in Hs as [Hin Hms]. apply in_map_iff in Hin as (s0 & <- & Hin0).
      specialize (Hall ks eq_refl). rewrite Forall_forall in Hall.
      apply list_elem_of_In in Hin0. specialize (Hall s0 Hin0). congruence.
Qed.

Lemma upsert_keeps_rows_witness :
  exists tgt',
    Some [UpsertFacts.old_v1; fix_row UpsertFacts.new_v2] = Some tgt' /\
    (1 <= length tgt' <= 1 + 1)%nat.
Proof.
  destruct (upsert_keeps_rows [UpsertFacts.new_v2] default_dedupe_on
              (Warehouse (Some [UpsertFacts.old_v1]) None)
              (Warehouse (Some [UpsertFacts.old_v1; fix_row UpsertFacts.new_v2]) None)
              [UpsertFacts.old_v1])
    as (tgt' & H1 & H2 & _).
  - vm_compute. reflexivity.
  - reflexivity.
  - exists tgt'. split; [exact H1|exact H2].
Defined.

Lemma conds_of_nil_iff (keys : list pystr) :
  conds_of keys = [] <-> Forall (fun k => strip k = []) keys.
Proof.
  induction keys as [|k keys IH]; cbn [conds_of].
  - split; [constructor|reflexivity].
  - destruct (strip k) as [|c r] eqn:E; cbn [nonempty negb].
    + rewrite IH. split; [now constructor|]. intros H. now inversion H.
    + split; [discriminate|]. intros H. inversion H. congruence.
Qed.

Lemma join_conds_head (conds : list pystr) (c : pystr) (rest : list pystr) :
  conds_of conds = c :: rest ->
  exists tl, join (py " AND ") (c :: rest) = 84%N :: tl.
Proof.
  intros H. assert (Hc : exists tl, c = 84%N :: tl).
  { induction conds as [|k ks IH]; [discriminate|]. cbn [conds_of] in H.
    destruct (negb (nonempty (strip k))); [auto|].
    injection H as <- _. eexists. reflexivity. }
  destruct Hc as [tl ->]. destruct rest; cbn; eauto.
Qed.

(** The ON clause [_build_merge_condition_from_keys] writes is [FALSE]
    exactly when every key is blank; otherwise it starts with a comparison
    of a destination column. *)
Theorem merge_condition_false_iff (keys : list pystr) :
  _build_merge_condition_from_keys keys = py "FALSE" <->
  Forall (fun k => strip k = []) keys.
Proof.
  unfold _build_merge_condition_from_keys. rewrite <- conds_of_nil_iff.
  destruct (conds_of keys) as [|c rest] eqn:E; cbn [nonempty_list].
  - split; reflexivity.
  - split; [|discriminate]. intros H.
    destruct (join_conds_head keys c rest E) as [tl Htl]. rewrite Htl in H.
    discriminate.
Qed.

End UpsertLaws.

Module LoadToBqLaws.
Import LoadToBq.

(** A staged segment row whose three key columns are all present. *)
Definition keyed (s : seg_row) : Prop :=
  sg_video_id s <> None /\ sg_lang s <> None /\ sg_idx s <> None.

Lemma seg_matches_refl (s : seg_row) : keyed s -> seg_matches s s = true.
Proof.
  intros (H1 & H2 & H3). unfold seg_matches, sql_eq.
  destruct (sg_video_id s), (sg_lang s), (sg_idx s); try congruence.
  now rewrite !bool_decide_eq_true_2.
Qed.

Lemma merge_segments_again (tgt src : list seg_row) :
  Forall keyed src ->
  merge_segments (merge_segments tgt src) src = merge_segments tgt src.
Proof.
  intros Hk. unfold merge_segments at 1.
  rewrite UpsertFacts.filter_all_false; [apply app_nil_r|].
  intros s Hs. apply negb_false_iff. unfold merge_segments.
  rewrite existsb_app. apply orb_true_iff.
  destruct (existsb (fun t => seg_matches t s) tgt) eqn:E; [now left|right].
  apply existsb_exists. exists s. split.
  - apply filter_In. split; [exact Hs|]. now rewrite E.
  - apply seg_matches_refl. rewrite Forall_forall in Hk.
    apply Hk, list_elem_of_In, Hs.
Qed.

(** Merging segment rows is idempotent as soon as every staged row has its
    three key columns, even when the batch repeats a key: the second merge
    of the same staging rows inserts nothing, and no merge ever rewrites a
    row that is already there. *)
Theorem merge_subtitles_segments_idempotent (src : list seg_row)
    (tables : list seg_row * list full_row) :
  Forall keyed src ->
  exists segments,
    _merge_subtitles (Some src) None tables = Ok (segments, snd tables) /\
    _merge_subtitles (Some src) None (segments, snd tables)
    = Ok (segments, snd tables) /\
    take (length (fst tables)) segments = fst tables.
Proof.
  intros Hk. exists (merge_segments (fst tables) src).
  unfold _merge_subtitles. cbn [fst snd].
  rewrite (merge_segments_again _ _ Hk).
  repeat split. apply LoadToBqFacts.merge_segments_keeps.
Qed.

Lemma merge_subtitles_segments_idempotent_witness :
  exists segments,
    _merge_subtitles (Some [LoadToBqFacts.seg_v1_new; LoadToBqFacts.seg_v1_new]) None ([], [])
    = Ok (segments, []) /\
    _merge_subtitles (Some [LoadToBqFacts.seg_v1_new; LoadToBqFacts.seg_v1_new]) None
      (segments, []) = Ok (segments, []).
Proof.
  destruct (merge_subtitles_segments_idempotent
              [LoadToBqFacts.seg_v1_new; LoadToBqFacts.seg_v1_new] ([], []))
    as (segments & H1 & H2 & _).
  - repeat constructor; discriminate.
  - exists segments. split; assumption.
Defined.

End LoadToBqLaws.

Module QueryServiceLaws.
Import QueryService.

Lemma ask_body_returns_json (W : warehouse) (p : payload) t t' r :
  ask_body W p t = (t', Ok r) -> exists sm cs, r = JSONResponse sm cs.
Proof.
  unfold ask_body.
  destruct (nonempty (p_q_text (params_of p))); cbn [negb]; [|discriminate].
  unfold mbind, req_bind, query_candidates.
  destruct (retrieve W (params_of p)) as [[|c rows]|e]; cbn [nonempty_list negb];
    [| |discriminate].
  - cbn. intros [= _ <-]. eauto.
  - unfold query_summary.
    destruct (generate W _) as [[|[tx|] srows]|e]; cbn; try discriminate;
      intros [= _ <-]; eauto.
Qed.

(** [ask] never answers with a status other than 500: the 400 it raises for
    a missing question is caught by its own handler, so a request without a
    question gets a 500 and no query is sent. *)
Theorem ask_errors_are_500 (W : warehouse) (p : payload) :
  (forall st d, snd (ask W p) = HTTPException st d -> st = 500) /\
  (p_q_text (params_of p) = [] ->
   exists d, ask W p = ([], HTTPException 500 d)).
Proof.
  split.
  - unfold ask. destruct (ask_body W p []) as [t [r|e]] eqn:E; cbn [snd].
    + destruct (ask_body_returns_json W p [] t r E) as (sm & cs & ->). discriminate.
    + now intros st d [= <- _].
  - intros Hq. unfold ask, ask_body. rewrite Hq. cbn. eauto.
Qed.

Lemma ask_errors_are_500_witness :
  exists d,
    ask QueryServiceFacts.empty_warehouse (Payload None None None None None None)
    = ([], HTTPException 500 d).
Proof.
  apply (proj2 (ask_errors_are_500 QueryServiceFacts.empty_warehouse
                  (Payload None None None None None None))).
  reflexivity.
Defined.

End QueryServiceLaws.

Module JitterLaws.
Import Jitter.

Lemma pymax_cases (a b : Q) :
  ((a < b)%Q /\ pymax a b = b) \/ ((b <= a)%Q /\ pymax a b = a).
Proof.
  unfold pymax. destruct (b ?= a)%Q eqn:E.
  - right. split; [|reflexivity]. apply Qeq_alt in E. rewrite E. apply Qle_refl.
  - right. split; [|reflexivity]. apply Qlt_alt in E. now apply Qlt_le_weak.
  - left. split; [|reflexivity]. now apply Qgt_alt.
Qed.

(** With [random.random()] in [0, 1), [jitter_sleep] sleeps at least
    [base_seconds] and at most [base_seconds + max(span, 0)]; a negative
    span adds nothing. *)
Theorem jitter_sleep_bounds (r base span : Q) :
  (0 <= r)%Q -> (r < 1)%Q ->
  let d := jitter_sleep_seconds r base span in
  (base <= d)%Q /\ (d <= base + pymax span 0)%Q /\
  ((span <= 0)%Q -> (d == base)%Q).
Proof.
  intros H0 H1 d. subst d. unfold jitter_sleep_seconds.
  destruct (pymax_cases span 0) as [[H ->]|[H ->]]; repeat split; try nra; intros; nra.
Qed.

Lemma jitter_sleep_bounds_witness :
  ((4#1) <= jitter_sleep_seconds (1#2) (4#1) (1#2))%Q.
Proof.
  apply (jitter_sleep_bounds (1#2) (4#1) (1#2)); vm_compute;
    (discriminate || reflexivity).
Defined.

End JitterLaws.

Module ListingLaws.
Import Listing.

Lemma take_app_drop {A} (xs : list A) (a b : nat) :
  take a xs ++ take b (drop a xs) = take (a + b) xs.
Proof.
  revert a. induction xs as [|x xs IH]; intros a.
  - now rewrite drop_nil, !take_nil.
  - destruct a as [|a]; [reflexivity|]. cbn. now rewrite IH.
Qed.

Lemma concat_slices {A} (xs : list A) (n m : nat) :
  concat (map (fun k => slice xs (k * n) n) (seq 0 m)) = take (m * n) xs.
Proof.
  induction m as [|m IH]; [reflexivity|].
  rewrite seq_S, map_app, concat_app, IH. cbn [map concat plus].
  rewrite app_nil_r. unfold slice. rewrite take_app_drop. f_equal. lia.
Qed.

Lemma range_len_covers (len n : nat) :
  (0 < n)%nat -> (len <= range_len len n * n)%nat.
Proof.
  intros Hn. unfold range_len. destruct (Nat.eqb_spec len 0); [lia|].
  pose proof (Nat.div_mod_eq (len - 1) n) as E.
  pose proof (Nat.mod_upper_bound (len - 1) n ltac:(lia)) as Hm. nia.
Qed.

Lemma range_len_below (len n k : nat) :
  (0 < n)%nat -> (k < range_len len n)%nat -> (k * n < len)%nat.
Proof.
  intros Hn. unfold range_len. destruct (Nat.eqb_spec len 0); [lia|].
  intros Hk. pose proof (Nat.div_mod_eq (len - 1) n) as E.
  assert (k <= (len - 1) / n)%nat by lia. nia.
Qed.

(** [_chunked] with a positive size cuts the list into consecutive pieces:
    their concatenation is the list, and every piece has between one and [n]
    elements.  A size of zero raises, and a negative size silently yields no
    piece at all. *)
Theorem chunked_partition {A} (xs : list A) (n : Z) :
  (0 < n ->
   exists chunks,
     _chunked xs n = Ok chunks /\ concat chunks = xs /\
     Forall (fun c => (1 <= length c)%nat /\ Z.of_nat (length c) <= n) chunks) /\
  (n = 0 -> exists e, _chunked xs n = Raise e) /\
  (n < 0 -> _chunked xs n = Ok []).
Proof.
  split; [|split].
  - intros Hn. unfold _chunked.
    destruct (Z.eqb_spec n 0); [lia|]. destruct (Z.ltb_spec n 0); [lia|].
    eexists. split; [reflexivity|].
    assert (Hp : (0 < Z.to_nat n)%nat) by lia.
    unfold range_from0. rewrite map_map. split.
    + rewrite concat_slices. apply take_ge.
      now apply range_len_covers.
    + apply Forall_forall. intros c Hc.
      apply list_elem_of_In, in_map_iff in Hc as (k & <- & Hk).
      apply in_seq in Hk. unfold slice.
      rewrite length_take, length_drop.
      pose proof (range_len_below (length xs) (Z.to_nat n) k Hp ltac:(lia)). lia.
  - intros ->. eexists. reflexivity.
  - intros Hn. unfold _chunked.
    destruct (Z.eqb_spec n 0); [lia|]. destruct (Z.ltb_spec n 0); [reflexivity|lia].
Qed.

Lemma chunked_partition_witness :
  exists chunks,
    _chunked [1; 2; 3; 4; 5] 2 = Ok chunks /\ concat chunks = [1; 2; 3; 4; 5].
Proof.
  destruct (proj1 (chunked_partition [1; 2; 3; 4; 5] 2) ltac:(lia))
    as (chunks & H1 & H2 & _).
  exists chunks. split; assumption.
Defined.

Lemma fromkeys_fold (ids acc : list pystr) :
  NoDup acc ->
  NoDup (fold_left fromkeys_step ids acc) /\
  (forall x, x ∈ fold_left fromkeys_step ids acc <-> x ∈ acc \/ x ∈ ids) /\
  exists tl, fold_left fromkeys_step ids acc = acc ++ tl /\ sublist tl ids.
Proof.
  revert acc. induction ids as [|x ids IH]; intros acc Hnd; cbn [fold_left].
  - split; [exact Hnd|]. split.
    + intros y. split; [auto|]. intros [H|H]; [exact H|inversion H].
    + exists []. split; [now rewrite app_nil_r|constructor].
  - assert (Hstep : fromkeys_step acc x = if bool_decide (x ∈ acc) then acc else acc ++ [x])
      by reflexivity.
    rewrite Hstep. clear Hstep. case_bool_decide as Hin.
    + destruct (IH acc Hnd) as (H1 & H2 & tl & H3 & H4).
      split; [exact H1|]. split.
      * intros y. rewrite H2, elem_of_cons. split; [tauto|].
        intros [H|[->|H]]; tauto.
      * exists tl. split; [exact H3|]. now apply sublist_cons.
    + assert (Hnd' : NoDup (acc ++ [x])).
      { apply NoDup_app. split; [exact Hnd|]. split; [|apply NoDup_singleton].
        intros y Hy Hy'. apply list_elem_of_singleton in Hy'. now subst. }
      destruct (IH (acc ++ [x]) Hnd') as (H1 & H2 & tl & H3 & H4).
      split; [exact H1|]. split.
      * intros y. rewrite H2, elem_of_app, list_elem_of_singleton, elem_of_cons. tauto.
      * exists (x :: tl). split; [now rewrite H3, <- app_assoc|].
        now apply sublist_skip.
Qed.

Lemma setdefault_fold (ids acc : list pystr) :
  fold_left setdefault_step ids (acc, acc)
  = (fold_left fromkeys_step ids acc, fold_left fromkeys_step ids acc).
Proof.
  revert acc. induction ids as [|x ids IH]; intros acc; [reflexivity|].
  cbn [fold_left].
  assert (H1 : setdefault_step (acc, acc) x
               = (fromkeys_step acc x, fromkeys_step acc x)).
  { unfold setdefault_step, fromkeys_step. cbn [fst snd]. now case_bool_decide. }
  rewrite H1. apply IH.
Qed.

(** The first occurrences of a list, in order: the element at position [i]
    is kept exactly when it does not occur before position [i]. *)
Definition first_occurrences (ids : list pystr) : list pystr :=
  omap id (imap (fun i x => if bool_decide (x ∈ take i ids) then None
                            else Some x) ids).

Lemma fromkeys_fold_first (l p acc : list pystr) :
  (forall x, x ∈ acc <-> x ∈ p) ->
  fold_left fromkeys_step l acc
  = acc ++ omap id (imap (fun i x => if bool_decide (x ∈ p ++ take i l)
                                     then None else Some x) l).
Proof.
  revert p acc. induction l as [|x l IH]; intros p acc Hp.
  - cbn. now rewrite app_nil_r.
  - cbn [fold_left]. rewrite imap_cons. cbn [take].
    assert (Hstep : fromkeys_step acc x
                    = if bool_decide (x ∈ acc) then acc else acc ++ [x])
      by reflexivity.
    rewrite Hstep. clear Hstep. rewrite app_nil_r.
    assert (Htl : imap (fun i y => if bool_decide (y ∈ p ++ x :: take i l)
                                   then None else Some y) l
                  = imap (fun i y => if bool_decide (y ∈ (p ++ [x]) ++ take i l)
                                     then None else Some y) l).
    { apply imap_ext. intros i y _. cbn. now rewrite <- app_assoc. }
    change (imap ((fun i y => if bool_decide (y ∈ p ++ take i (x :: l))
                              then None else Some y) ∘ S) l)
      with (imap (fun i y => if bool_decide (y ∈ p ++ x :: take i l)
                             then None else Some y) l).
    rewrite Htl. case_bool_decide as Hin.
    + rewrite bool_decide_eq_true_2 by now apply Hp.
      cbn [omap list_omap id]. apply IH. intros y.
      rewrite elem_of_app, list_elem_of_singleton, Hp. split; [tauto|].
      intros [H| ->]; [exact H|now apply Hp].
    + rewrite bool_decide_eq_false_2 by (intros H; apply Hin; now apply Hp).
      cbn [omap list_omap id]. rewrite (IH (p ++ [x]) (acc ++ [x])).
      * now rewrite <- app_assoc.
      * intros y. rewrite !elem_of_app, Hp. tauto.
Qed.

(** Both de-duplications keep the first occurrence of each id, in order:
    the result lists the ids at the positions where they occur for the
    first time; so it has no duplicate, holds exactly the ids of the input,
    and is a subsequence of it; the comprehension of [p01] and
    [dict.fromkeys] of [p02] compute the same list. *)
Theorem dedupe_keeps_first (ids : list pystr) :
  dedupe_ids ids = first_occurrences ids /\
  NoDup (dedupe_ids ids) /\
  (forall x, x ∈ dedupe_ids ids <-> x ∈ ids) /\
  sublist (dedupe_ids ids) ids /\
  dedupe_ids ids = fromkeys_list ids.
Proof.
  assert (E : dedupe_ids ids = fromkeys_list ids).
  { unfold dedupe_ids, fromkeys_list. now rewrite setdefault_fold. }
  rewrite E. unfold fromkeys_list.
  destruct (fromkeys_fold ids [] (NoDup_nil_2)) as (H1 & H2 & tl & H3 & H4).
  split; [|split; [exact H1|]; split; [|split; [|reflexivity]]].
  - exact (fromkeys_fold_first ids [] [] (fun x => conj (fun H => H) (fun H => H))).
  - intros x. rewrite H2. split; [|tauto]. intros [H|H]; [inversion H|exact H].
  - rewrite H3. exact H4.
Qed.

Example first_occurrences_sample :
  dedupe_ids [py "a"; py "b"; py "a"; py "c"; py "b"] = [py "a"; py "b"; py "c"] /\
  first_occurrences [py "a"; py "b"; py "a"] = [py "a"; py "b"].
Proof. split; vm_compute; reflexivity. Qed.

Lemma fromkeys_fold_nodup (ids acc : list pystr) :
  NoDup (acc ++ ids) -> fold_left fromkeys_step ids acc = acc ++ ids.
Proof.
  revert acc. induction ids as [|x ids IH]; intros acc Hnd; cbn [fold_left].
  - now rewrite app_nil_r.
  - assert (Hstep : fromkeys_step acc x = if bool_decide (x ∈ acc) then acc else acc ++ [x])
      by reflexivity.
    rewrite Hstep. clear Hstep. case_bool_decide as Hin.
    + exfalso. apply NoDup_app in Hnd as (_ & Hd & _).
      apply (Hd x Hin). left.
    + rewrite IH; [now rewrite <- app_assoc|]. now rewrite <- app_assoc.
Qed.

(** De-duplicating a list that has no duplicate changes nothing, so
    de-duplicating twice is the same as once. *)
Theorem dedupe_idempotent (ids : list pystr) :
  (NoDup ids -> dedupe_ids ids = ids) /\
  dedupe_ids (dedupe_ids ids) = dedupe_ids ids.
Proof.
  assert (H : forall l, NoDup l -> dedupe_ids l = l).
  { intros l Hl. unfold dedupe_ids. rewrite setdefault_fold. cbn [snd].
    now rewrite fromkeys_fold_nodup. }
  split; [apply H|]. apply H.
  unfold dedupe_ids. rewrite setdefault_fold. cbn [snd].
  apply fromkeys_fold, NoDup_nil_2.
Qed.

End ListingLaws.

Module IsoDurationLaws.
Import IsoDuration.

Example iso8601_samples :
  (iso8601_to_seconds WebVtt.ascii_decimal (Some (py "PT1H2M3.5S")) == 7447 # 2)%Q /\
  (iso8601_to_seconds WebVtt.ascii_decimal (Some (py "P1DT1S")) == 86401 # 1)%Q /\
  iso8601_to_seconds WebVtt.ascii_decimal (Some (py "PT5")) = 0%Q /\
  iso8601_to_seconds WebVtt.ascii_decimal (Some (py "1H")) = 0%Q /\
  iso8601_to_seconds WebVtt.ascii_decimal None = 0%Q.
Proof. repeat split; vm_compute; reflexivity. Qed.

(** A unit of a duration as text: the digits, then the unit letter. *)
Definition render_unit (g : option pystr) (letter : N) (rest : pystr) : pystr :=
  match g with
  | Some d => d ++ letter :: rest
  | None => rest
  end.

Definition has_time (m : iso_match) : bool :=
  match g_h m, g_m m, g_s m with
  | None, None, None => false
  | _, _, _ => true
  end.

(** The duration text with the given components: [P], the days, and when a
    time component is present [T] followed by hours, minutes and seconds. *)
Definition render_iso (m : iso_match) : pystr :=
  80%N :: render_unit (g_days m) 68%N
            (if has_time m then
               84%N :: render_unit (g_h m) 72%N
                         (render_unit (g_m m) 77%N (render_unit (g_s m) 83%N []))
             else []).

Ltac in_letters := rewrite ?elem_of_cons; auto 10.

Section Laws.
Variable todecimal : N -> option Z.

(** The letters and the dot of the pattern are no decimal digits. *)
Hypothesis letters_not_digits :
  Forall (fun c => todecimal c = None) [68; 84; 72; 77; 83; 46]%N.

Definition all_digits (d : pystr) : Prop :=
  Forall (fun c => WebVtt.is_digit todecimal c = true) d.

(** A non-empty run of digits. *)
Definition number (d : pystr) : Prop := d <> [] /\ all_digits d.

(** Digits, or digits, a dot and digits. *)
Definition decimal (d : pystr) : Prop :=
  number d \/ exists i f, d = i ++ WebVtt.dot :: f /\ number i /\ number f.

Definition well_formed (m : iso_match) : Prop :=
  (forall d, g_days m = Some d -> number d) /\
  (forall d, g_h m = Some d -> number d) /\
  (forall d, g_m m = Some d -> number d) /\
  (forall d, g_s m = Some d -> decimal d).

Lemma not_digit (c : N) :
  c ∈ [68; 84; 72; 77; 83; 46]%N -> WebVtt.is_digit todecimal c = false.
Proof.
  intros H. rewrite Forall_forall in letters_not_digits.
  unfold WebVtt.is_digit. now rewrite (letters_not_digits c H).
Qed.

Lemma span_digits_app (d : pystr) (l : N) (rest : pystr) :
  all_digits d -> WebVtt.is_digit todecimal l = false ->
  span_digits todecimal (d ++ l :: rest) = (d, l :: rest).
Proof.
  intros Hd Hl. induction Hd as [|c d Hc Hd IH]; cbn [app span_digits].
  - now rewrite Hl.
  - now rewrite Hc, IH.
Qed.

Lemma unit_group_next (letter : N) (d : pystr) (l : N) (rest : pystr) :
  all_digits d -> WebVtt.is_digit todecimal l = false ->
  unit_group todecimal letter (d ++ l :: rest) =
    if nonempty d && N.eqb l letter then (Some d, rest)
    else (None, d ++ l :: rest).
Proof.
  intros Hd Hl. unfold unit_group. rewrite (span_digits_app d l rest Hd Hl).
  destruct d as [|c d]; [reflexivity|]. cbn [nonempty andb].
  destruct (N.eqb l letter); reflexivity.
Qed.

(** A text that does not begin with the unit [letter]'s group. *)
Definition clear_of (letter : N) (t : pystr) : Prop :=
  unit_group todecimal letter t = (None, t).

Lemma clear_of_nil (letter : N) : clear_of letter [].
Proof. reflexivity. Qed.

Lemma clear_of_other (letter l : N) (d rest : pystr) :
  all_digits d -> l ∈ [68; 84; 72; 77; 83; 46]%N -> l <> letter ->
  clear_of letter (d ++ l :: rest).
Proof.
  intros Hd Hl Hne. unfold clear_of.
  rewrite (unit_group_next letter d l rest Hd (not_digit l Hl)).
  apply N.eqb_neq in Hne. rewrite Hne. now rewrite andb_false_r.
Qed.

Lemma unit_group_render (letter : N) (g : option pystr) (rest : pystr) :
  letter ∈ [68; 84; 72; 77; 83; 46]%N ->
  (forall d, g = Some d -> number d) -> clear_of letter rest ->
  unit_group todecimal letter (render_unit g letter rest) = (g, rest).
Proof.
  intros Hl Hg Hc. destruct g as [d|]; cbn [render_unit]; [|exact Hc].
  destruct (Hg d eq_refl) as [Hne Hd].
  rewrite (unit_group_next letter d letter rest Hd (not_digit letter Hl)).
  rewrite N.eqb_refl. destruct d; [congruence|reflexivity].
Qed.

(** The seconds text starts with digits followed by [S] or by the dot. *)
Lemma decimal_shape (d : pystr) :
  decimal d ->
  exists i l rest, d ++ [letter_S] = i ++ l :: rest /\ all_digits i /\
                   (l = letter_S \/ l = WebVtt.dot).
Proof.
  intros [[Hne Hd] | (i & f & -> & [Hi1 Hi2] & [Hf1 Hf2])].
  - exists d, letter_S, []. auto.
  - exists i, WebVtt.dot, (f ++ [letter_S]). rewrite <- app_assoc. auto.
Qed.

Lemma clear_of_seconds (letter : N) (g : option pystr) :
  (forall d, g = Some d -> decimal d) ->
  letter <> letter_S -> letter <> WebVtt.dot ->
  clear_of letter (render_unit g letter_S []).
Proof.
  intros Hg H1 H2. destruct g as [d|]; cbn [render_unit]; [|apply clear_of_nil].
  destruct (decimal_shape d (Hg d eq_refl)) as (i & l & rest & E & Hi & Hl).
  change (d ++ letter_S :: []) with (d ++ [letter_S]). rewrite E.
  apply clear_of_other; [exact Hi| |].
  - destruct Hl as [->| ->]; unfold letter_S, WebVtt.dot; in_letters.
  - destruct Hl as [->| ->]; congruence.
Qed.

Lemma seconds_group_render (g : option pystr) :
  (forall d, g = Some d -> decimal d) ->
  seconds_group todecimal (render_unit g letter_S []) = (g, []).
Proof.
  intros Hg. destruct g as [d|]; cbn [render_unit]; [|reflexivity].
  assert (HS : WebVtt.is_digit todecimal letter_S = false)
    by (apply not_digit; unfold letter_S; in_letters).
  assert (HD : WebVtt.is_digit todecimal WebVtt.dot = false)
    by (apply not_digit; unfold WebVtt.dot; in_letters).
  destruct (Hg d eq_refl) as [[Hne Hd] | (i & f & -> & [Hi1 Hi2] & [Hf1 Hf2])];
    unfold seconds_group.
  - rewrite (span_digits_app d letter_S [] Hd HS).
    destruct d as [|c d]; [congruence|]. now rewrite N.eqb_refl.
  - rewrite <- app_assoc. cbn [app].
    rewrite (span_digits_app i WebVtt.dot _ Hi2 HD).
    destruct i as [|c i]; [congruence|].
    change (N.eqb WebVtt.dot letter_S) with false. rewrite N.eqb_refl.
    rewrite (span_digits_app f letter_S [] Hf2 HS).
    destruct f as [|c' f]; [congruence|]. now rewrite N.eqb_refl.
Qed.

(** Parsing the text of a duration gives its components back, and the
    seconds are [days * 86400 + h * 3600 + m * 60 + s] of their values. *)
Theorem iso8601_round_trip (m : iso_match) :
  well_formed m ->
  _ISO_DUR_match todecimal (render_iso m) = Some m /\
  iso8601_to_seconds todecimal (Some (render_iso m))
  = (group_value todecimal (g_days m) * 86400
     + group_value todecimal (g_h m) * 3600
     + group_value todecimal (g_m m) * 60
     + group_value todecimal (g_s m))%Q.
Proof.
  intros (Hd & Hh & Hm & Hs).
  assert (E : _ISO_DUR_match todecimal (render_iso m) = Some m).
  { destruct m as [days h mi sec]. cbn [g_days g_h g_m g_s] in *.
    unfold render_iso, _ISO_DUR_match. cbn [g_days g_h g_m g_s].
    change 83%N with letter_S.
    destruct (has_time (IsoMatch days h mi sec)) eqn:Ht.
    - rewrite (unit_group_render 68%N days _ ltac:(in_letters) Hd).
      2:{ apply (clear_of_other _ 84%N []); [constructor|in_letters|discriminate]. }
      cbv beta iota.
      assert (Hcm : clear_of 77%N (render_unit sec letter_S []))
        by (apply clear_of_seconds; [exact Hs|discriminate|discriminate]).
      assert (Hch : clear_of 72%N (render_unit mi 77%N (render_unit sec letter_S []))).
      { destruct mi as [d|]; cbn [render_unit].
        - apply clear_of_other; [apply (Hm d eq_refl)|in_letters|discriminate].
        - apply clear_of_seconds; [exact Hs|discriminate|discriminate]. }
      rewrite (unit_group_render 72%N h _ ltac:(in_letters) Hh Hch).
      cbv beta iota.
      rewrite (unit_group_render 77%N mi _ ltac:(in_letters) Hm Hcm).
      cbv beta iota.
      rewrite (seconds_group_render sec Hs).
      reflexivity.
    - rewrite (unit_group_render 68%N days [] ltac:(in_letters) Hd (clear_of_nil _)).
      cbv beta iota. cbn [at_end]. unfold has_time in Ht. cbn [g_h g_m g_s] in Ht.
      destruct h, mi, sec; try discriminate. reflexivity. }
  split; [exact E|]. unfold iso8601_to_seconds.
  change (render_iso m) with (80%N :: tl (render_iso m)) at 1.
  change (80%N :: tl (render_iso m)) with (render_iso m). now rewrite E.
Qed.

End Laws.

Definition one_hour_two_minutes : iso_match :=
  IsoMatch None (Some (py "1")) (Some (py "02")) (Some (py "3.5")).

Lemma iso8601_round_trip_witness :
  _ISO_DUR_match WebVtt.ascii_decimal (py "PT1H02M3.5S") = Some one_hour_two_minutes.
Proof.
  refine (proj1 (iso8601_round_trip WebVtt.ascii_decimal _ one_hour_two_minutes _)).
  - repeat constructor.
  - unfold well_formed, one_hour_two_minutes. cbn [g_days g_h g_m g_s].
    split; [discriminate|]. split; [|split].
    + intros d [= <-]. split; [discriminate|repeat constructor].
    + intros d [= <-]. split; [discriminate|repeat constructor].
    + intros d [= <-]. right. exists (py "3"), (py "5").
      split; [reflexivity|].
      split; (split; [discriminate|repeat constructor]).
Defined.

End IsoDurationLaws.

Module PlaylistLaws.
Import Playlist.

Lemma default_sequence_length : length Backoff.default_sequence = 3%nat.
Proof. reflexivity. Qed.

Lemma fetch_page_all_retried (get : pages) (delays : list Q) (n : nat)
    (token : option pystr) :
  (forall k, (k < length delays)%nat -> get (n + k)%nat token = Retryable) ->
  fetch_page get delays n token = None.
Proof.
  revert n. induction delays as [|d ds IH]; intros n H; [reflexivity|].
  cbn [fetch_page].
  assert (H0 : get n token = Retryable).
  { rewrite <- (H 0%nat); [now rewrite Nat.add_0_r|cbn; lia]. }
  rewrite H0. apply IH. intros k Hk.
  replace (S n + k)%nat with (n + S k)%nat by lia. apply H. cbn. lia.
Qed.

Lemma video_ids_present (ids : list pystr) : video_ids (map Some ids) = Ok ids.
Proof.
  induction ids as [|v ids IH]; [reflexivity|]. cbn [map video_ids].
  now rewrite IH.
Qed.

(** When the three attempts at the first page (no page token yet) all have
    to be retried, the generator ends without an error and without a video:
    the failure is not reported. *)
Theorem playlist_items_first_page_failure (get : pages) (n : nat)
    (token : option pystr) (out : list pystr) (fuel : nat) :
  truthy token = false ->
  (forall k, (k < 3)%nat -> get (n + k)%nat token = Retryable) ->
  playlist_items (S fuel) get n token out = Some (Ok out).
Proof.
  intros Ht H. cbn [playlist_items].
  rewrite fetch_page_all_retried by (rewrite default_sequence_length; exact H).
  now rewrite Ht.
Qed.

Lemma playlist_items_first_page_failure_witness :
  playlist_items 1 (fun _ _ => Retryable) 0 None [] = Some (Ok []).
Proof.
  apply (playlist_items_first_page_failure (fun _ _ => Retryable) 0 None [] 0).
  - reflexivity.
  - intros k Hk. reflexivity.
Defined.

(** When the requests for a later page (a non-empty page token) keep having
    to be retried, the [while True] loop asks for the same page again and
    again: no number of rounds makes [playlist_items] return. *)
Theorem playlist_items_never_returns (get : pages) (token : option pystr) :
  truthy token = true ->
  forall (fuel n : nat) (out : list pystr),
    (forall k, (n <= k)%nat -> get k token = Retryable) ->
    playlist_items fuel get n token out = None.
Proof.
  intros Ht fuel. induction fuel as [|fuel IH]; intros n out H; [reflexivity|].
  cbn [playlist_items].
  rewrite fetch_page_all_retried by (intros k _; apply H; lia).
  rewrite Ht. apply IH. intros k Hk. apply H. lia.
Qed.

Lemma playlist_items_never_returns_witness :
  playlist_items 5 (fun _ _ => Retryable) 0 (Some (py "CAUQAA")) [py "v1"] = None.
Proof.
  apply (playlist_items_never_returns (fun _ _ => Retryable) (Some (py "CAUQAA"))).
  - reflexivity.
  - intros k Hk. reflexivity.
Defined.

(** The pages [ps], each with its video ids and its [nextPageToken], are
    served one after the other from slot [n] and page token [token]: each
    within the three attempts of its round, every page but the last with a
    non-empty next token. *)
Fixpoint served (get : pages) (n : nat) (token : option pystr)
    (ps : list (list pystr * option pystr)) : Prop :=
  match ps with
  | [] => False
  | p :: rest =>
      fetch_page get Backoff.default_sequence n token
      = Some (Page (map Some (fst p)) (snd p)) /\
      match rest with
      | [] => truthy (snd p) = false
      | _ :: _ => truthy (snd p) = true /\ served get (n + 3) (snd p) rest
      end
  end.

(** When the pages of a playlist are served, [playlist_items] yields the
    video ids of all pages, page after page in their order, following each
    page's token, and stops at the first page without a next token. *)
Theorem playlist_items_all_pages (get : pages)
    (ps : list (list pystr * option pystr)) :
  forall (n : nat) (token : option pystr) (out : list pystr) (fuel : nat),
    served get n token ps -> (length ps <= fuel)%nat ->
    playlist_items fuel get n token out = Some (Ok (out ++ concat (map fst ps))).
Proof.
  induction ps as [|[ids next] rest IH]; intros n token out fuel Hs Hf;
    [destruct Hs|].
  destruct fuel as [|fuel]; [cbn in Hf; lia|].
  cbn [served fst snd] in Hs. destruct Hs as [Hp Hrest].
  cbn [playlist_items]. rewrite Hp, video_ids_present.
  cbn [map fst concat]. destruct rest as [|p rest'].
  - rewrite Hrest. cbn [map concat]. now rewrite app_nil_r.
  - destruct Hrest as [Ht Hrest]. rewrite Ht.
    rewrite (IH (n + 3)%nat next (out ++ ids) fuel Hrest) by (cbn in *; lia).
    now rewrite app_assoc.
Qed.

(** A first page delivered at the second attempt, and a last page. *)
Definition two_pages : pages :=
  fun n _ =>
    match n with
    | 1%nat => Page [Some (py "v1"); Some (py "v2")] (Some (py "CAUQAA"))
    | 3%nat => Page [Some (py "v3")] None
    | _ => Retryable
    end.

Lemma playlist_items_all_pages_witness :
  playlist_items 2 two_pages 0 None [] = Some (Ok [py "v1"; py "v2"; py "v3"]).
Proof.
  apply (playlist_items_all_pages two_pages
           [([py "v1"; py "v2"], Some (py "CAUQAA")); ([py "v3"], None)]
           0 None [] 2).
  - cbn [served]. split; [reflexivity|]. split; [reflexivity|].
    split; reflexivity.
  - cbn. lia.
Defined.

End PlaylistLaws.

Module FetchMainLaws.
Import Fetch FetchMain.

(** The two output files agree: every segment row belongs to a listed video
    and has a full row of the same video and language, every full row
    belongs to a listed video and has a segment row of the same video and
    language, and there is at most one full row per listed video. *)
Definition consistent (ids : list pystr) (acc : list seg_row * list full_row)
  : Prop :=
  Forall (fun row => s_video_id row ∈ ids /\
            exists f, f ∈ snd acc /\ f_video_id f = s_video_id row /\
                      f_lang f = s_lang row) (fst acc) /\
  Forall (fun f => f_video_id f ∈ ids /\
            exists row, row ∈ fst acc /\ s_video_id row = f_video_id f /\
                        s_lang row = f_lang f) (snd acc) /\
  (length (snd acc) <= length ids)%nat.

Lemma consistent_more (ids : list pystr) (vid : pystr) acc :
  consistent ids acc -> consistent (ids ++ [vid]) acc.
Proof.
  intros (Hs & Hf & Hl). split; [|split].
  - eapply Forall_impl; [exact Hs|]. intros row [Hin Hex]. split; [|exact Hex].
    apply elem_of_app. now left.
  - eapply Forall_impl; [exact Hf|]. intros f [Hin Hex]. split; [|exact Hex].
    apply elem_of_app. now left.
  - rewrite length_app. cbn. lia.
Qed.

Section Loop.
Variable B : nat -> backend.
Variable todecimal : N -> option Z.
Variables pref fb : pystr.

Lemma main_step_consistent (i : nat) (done : list pystr) (vid : pystr) acc :
  consistent done acc ->
  exists acc', main_step B todecimal pref fb i acc vid = Ok acc' /\
               consistent (done ++ [vid]) acc'.
Proof.
  intros Hc. unfold main_step.
  destruct (FetchFacts.fetch_returns (B i) todecimal vid pref fb)
    as ([s f] & -> & Hn & Hw & _).
  cbn [mbind result_bind fst snd] in *.
  destruct s as [|r0 s]; cbn [nonempty_list].
  { exists acc. split; [reflexivity|]. now apply consistent_more. }
  destruct f as [f|]; [|destruct Hn as [Hn _]; specialize (Hn eq_refl); discriminate].
  destruct (Hw f eq_refl) as (Hv & Hrows & _).
  eexists. split; [reflexivity|].
  destruct (consistent_more done vid acc Hc) as (Hs & Hf & _).
  destruct Hc as (_ & _ & Hl).
  split; [|split]; cbn [fst snd].
  - apply Forall_app. split.
    + eapply Forall_impl; [exact Hs|]. intros row (Hin & g & Hg & Hgv & Hgl).
      split; [exact Hin|]. exists g. split; [|auto].
      apply elem_of_app. now left.
    + eapply Forall_impl; [exact Hrows|]. intros row [Hrv Hrl]. split.
      * rewrite Hrv. apply elem_of_app. right. apply list_elem_of_singleton.
        reflexivity.
      * exists f. split; [|split; congruence].
        apply elem_of_app. right. now apply list_elem_of_singleton.
  - apply Forall_app. split.
    + eapply Forall_impl; [exact Hf|]. intros g (Hin & row & Hr & Hrv & Hrl).
      split; [exact Hin|]. exists row. split; [|auto].
      apply elem_of_app. now left.
    + constructor; [|constructor]. split.
      * rewrite Hv. apply elem_of_app. right. now apply list_elem_of_singleton.
      * inversion Hrows as [|? ? [Hrv Hrl] _]; subst. exists r0.
        split; [|split; congruence].
        apply elem_of_app. right. now left.
  - rewrite !length_app. cbn. lia.
Qed.

Lemma main_loop_consistent (ids done : list pystr) (i : nat) acc :
  consistent done acc ->
  exists acc', main_loop B todecimal pref fb i ids acc = Ok acc' /\
               consistent (done ++ ids) acc'.
Proof.
  revert done i acc. induction ids as [|vid ids IH]; intros done i acc Hc.
  - exists acc. rewrite app_nil_r. auto.
  - cbn [main_loop].
    destruct (main_step_consistent i done vid acc Hc) as (acc1 & -> & Hc1).
    cbn [mbind result_bind].
    destruct (IH (done ++ [vid]) (S i) acc1 Hc1) as (acc' & Hr & Hc').
    exists acc'. split; [exact Hr|]. now rewrite <- app_assoc in Hc'.
Qed.

(** Whatever the backend does at each video, the batch loop of [main] ends without an
    exception, and the rows it then writes to the two files agree: every
    segment row has a full row of the same video and language, every full
    row has such a segment row, all of them belong to listed videos, and
    there is at most one full row per listed video. *)
Theorem main_rows_consistent (ids : list pystr) :
  exists segs fulls,
    main_rows B todecimal pref fb ids = Ok (segs, fulls) /\
    consistent ids (segs, fulls).
Proof.
  unfold main_rows.
  assert (H0 : consistent [] (@nil seg_row, @nil full_row)).
  { split; [constructor|]. split; [constructor|]. cbn. lia. }
  destruct (main_loop_consistent ids [] 0 ([], []) H0) as ([segs fulls] & Hr & Hc).
  exists segs, fulls. split; [exact Hr|exact Hc].
Qed.

End Loop.

End FetchMainLaws.

Module SplitLaws.
Import Upsert Listing.

Lemma split_from_no_sep (sep : N) (s cur : pystr) :
  ~ In sep cur -> Forall (fun p => ~ In sep p) (split_from sep cur s).
Proof.
  revert cur. induction s as [|c r IH]; intros cur Hc; cbn [split_from].
  - constructor; [exact Hc|constructor].
  - destruct (N.eqb_spec c sep) as [->|Hne].
    + constructor; [exact Hc|]. apply IH. intros [].
    + apply IH. intros H. apply in_app_or in H as [H|[H|[]]]; congruence.
Qed.

(** An identifier read from a comma-separated argument: not empty, without
    a comma, and without whitespace at either end. *)
Definition clean (k : pystr) : Prop :=
  k <> [] /\ ~ In comma k /\
  (forall c, head k = Some c -> is_space c = false) /\
  (forall c, last k = Some c -> is_space c = false).

Lemma stripped_pieces_clean (text : pystr) :
  Forall clean
    (map strip (List.filter (fun k => nonempty (strip k))
                            (split_from comma [] text))).
Proof.
  apply Forall_forall. intros k Hk.
  apply list_elem_of_In, in_map_iff in Hk as (p & <- & Hp).
  apply filter_In in Hp as [Hp Hne].
  pose proof (split_from_no_sep comma text [] (fun H => H)) as Hs.
  rewrite Forall_forall in Hs. apply list_elem_of_In in Hp.
  specialize (Hs p Hp). unfold strip in *. repeat split.
  - intros E. rewrite E in Hne. discriminate.
  - intros H. apply TextLaws.strip_by_In in H. contradiction.
  - apply TextLaws.strip_by_head.
  - apply TextLaws.strip_by_last.
Qed.

(** The channel ids [main] reads from [--channels] and the key names
    [upsert_subtitles_raw] reads from [dedupe_on] are never blank, hold no
    comma, and neither start nor end with whitespace. *)
Theorem split_ids_clean (text : pystr) :
  Forall clean (split_ids text) /\ Forall clean (keys_of text).
Proof. split; apply stripped_pieces_clean. Qed.

End SplitLaws.

Module IngestSubtitlesLaws.
Import Upsert IngestSubtitles.

Lemma get_subtitles_video_id (YB : YtSubtitles.backend) (vid : pystr)
    (langs : option (list pystr)) :
  YtSubtitles._extract_info YB vid <> Ok None ->
  exists row, YtSubtitles.get_subtitles YB vid langs = Ok row /\
              YtSubtitles.video_id row = vid.
Proof.
  intros Hn. unfold YtSubtitles.get_subtitles.
  destruct (YtSubtitles._extract_info YB vid) as [[i|]|e]; [|congruence|eauto].
  cbn [YtSubtitles.pick_track mbind result_bind].
  destruct (YtSubtitles._pick_json3_track i _) as [[u lang] src].
  destruct (negb (nonempty u)); [eauto|].
  unfold try_except. destruct (YtSubtitles._download YB u); cbn; eauto.
Qed.

Lemma fetch_rows_ids (YB : nat -> YtSubtitles.backend) (ids : list pystr) (i : nat) :
  (forall k v, ids !! k = Some v ->
     YtSubtitles._extract_info (YB (i + k)%nat) v <> Ok None) ->
  exists rows, fetch_rows YB i ids = Ok rows /\ map video_id rows = ids.
Proof.
  revert i. induction ids as [|v ids IH]; intros i Hx; [exists []; auto|].
  destruct (IH (S i)) as (rows & Hr & Hi).
  { intros k w Hk. replace (S i + k)%nat with (i + S k)%nat by lia.
    now apply Hx. }
  destruct (get_subtitles_video_id (YB i) v None) as (r & Hg & Hv).
  { rewrite <- (Nat.add_0_r i). now apply Hx. }
  exists (to_row r :: rows). cbn [fetch_rows]. rewrite Hg, Hr. cbn.
  now rewrite Hv, Hi.
Qed.

(** The two key columns of [dedupe_on="video_id,subtitle_lang"]. *)
Definition script_keys : list column := [c_video_id; c_subtitle_lang].

Lemma script_keys_resolved :
  clause_keys (on_clause_of (keys_of (py "video_id,subtitle_lang")))
  = Some (Some script_keys).
Proof. vm_compute. reflexivity. Qed.

Definition key_video_id (k : list (option scalar)) : pystr :=
  match k with
  | Some (SStr v) :: _ => v
  | _ => []
  end.

Lemma staged_keys_NoDup (rows : list row) :
  NoDup (map video_id rows) ->
  NoDup (map (key script_keys) (map fix_row rows)).
Proof.
  intros H. apply (NoDup_fmap_1 key_video_id).
  change (NoDup (map key_video_id (map (key script_keys) (map fix_row rows)))).
  rewrite !map_map. exact H.
Qed.

(** When the video ids are distinct and no extraction returns [None], the
    script returns, whatever else the backend does at each video and
    whatever the destination table was (missing, too): the staging table of
    a non-empty run is gone, and the destination table holds a row for
    every video id.  The warehouse fails only as modelled: on a missing
    table, a rejected query, or a MERGE in which several source rows match
    one target row. *)
Theorem ingest_main_stores_each_video (YB : nat -> YtSubtitles.backend)
    (ids : list pystr) (w : warehouse) :
  NoDup ids ->
  (forall k v, ids !! k = Some v ->
     YtSubtitles._extract_info (YB k) v <> Ok None) ->
  exists w' tgt',
    main YB ids w = (w', Ok tt) /\
    dest w' = Some tgt' /\
    (ids <> [] -> tmp w' = None) /\
    (forall v, v ∈ ids -> exists t, t ∈ tgt' /\ video_id t = v).
Proof.
  intros Hnd Hx. unfold main, ensure_tables.
  destruct (fetch_rows_ids YB ids 0 Hx) as (rows & -> & Hids).
  set (tgt := default [] (dest w)). set (w1 := Warehouse (Some tgt) (tmp w)).
  destruct rows as [|r0 rows].
  { cbn in Hids. subst ids. exists w1, tgt. cbn. repeat split; try congruence.
    intros v Hv. inversion Hv. }
  assert (Hne : r0 :: rows <> []) by discriminate.
  rewrite (UpsertFacts.upsert_run (r0 :: rows) _ w1 (Some script_keys) tgt Hne
             script_keys_resolved eq_refl).
  rewrite <- Hids in Hnd.
  destruct (UpsertFacts.merge_rows_idempotent script_keys tgt
              (map fix_row (r0 :: rows)) (staged_keys_NoDup _ Hnd))
    as (tgt1 & -> & _ & Hun & _).
  exists (Warehouse (Some tgt1) None), tgt1. repeat split.
  intros v Hv. rewrite <- Hids in Hv.
  apply list_elem_of_In, in_map_iff in Hv as (r & <- & Hr).
  assert (Hs : In (fix_row r) (map fix_row (r0 :: rows))) by now apply in_map.
  destruct (unmatched (Some script_keys) tgt1 (fix_row r)) eqn:Hu.
  - assert (Hin : In (fix_row r)
                    (List.filter (unmatched (Some script_keys) tgt1)
                                 (map fix_row (r0 :: rows))))
      by (apply filter_In; auto).
    rewrite Hun in Hin. destruct Hin.
  - unfold unmatched in Hu. apply negb_false_iff, existsb_exists in Hu
      as (t & Ht & Hm).
    apply UpsertFacts.matches_true in Hm. exists t.
    split; [now apply list_elem_of_In|].
    cbn in Hm. congruence.
Qed.

(** A backend whose extraction fails for every video. *)
Definition offline : YtSubtitles.backend :=
  YtSubtitles.Backend (fun _ => Raise (py "DownloadError"))
                      (fun _ => Raise (py "ConnectionError"))
                      (py "2024-01-01T00:00:00+00:00").

Lemma ingest_main_stores_each_video_witness :
  exists w' tgt',
    main (fun _ => offline) [py "juLp1JUOGck"] (Warehouse None None) = (w', Ok tt) /\
    dest w' = Some tgt' /\
    ([py "juLp1JUOGck"] <> [] -> tmp w' = None) /\
    (forall v, v ∈ [py "juLp1JUOGck"] -> exists t, t ∈ tgt' /\ video_id t = v).
Proof.
  apply (ingest_main_stores_each_video (fun _ => offline) [py "juLp1JUOGck"]
           (Warehouse None None)).
  - apply NoDup_singleton.
  - intros k v _. discriminate.
Defined.

End IngestSubtitlesLaws.
